(** * Cookie pool service: acquisition-and-pool engine

    A shallow embedding of the parts of the service that carry invariants:
    the artifact store ([CookieService]), the refresh trackers
    ([CookieRefreshTracker], in its plain and its enhanced variant), the
    proxy rotator ([getRandomProxy]) and the pool scheduler
    ([CookiePoolManager]).

    Conventions.  Timestamps are milliseconds since the epoch, in [Z].
    A Mongo collection is the list of its documents in insertion order.
    Every read of the clock, of [crypto.randomUUID] and of [Math.random]
    is an explicit argument of the operation that performs it. *)

From Stdlib Require Import ZArith QArith Qround.
From stdpp Require Import base gmap strings list sorting.

Local Open Scope Z_scope.

(** Outcome of an operation that may throw. *)
Inductive result (E A : Type) : Type :=
| Ok (a : A)
| Throw (e : E).
Arguments Ok {E A} a.
Arguments Throw {E A} e.

(** ** Cursor operations shared by the queries *)

(** [.sort(...)]: documents in the order [leb]; documents the order does
    not separate keep the order of the collection. *)
Fixpoint insertBy {A : Type} (leb : A -> A -> bool) (x : A) (l : list A) : list A :=
  match l with
  | [] => [x]
  | y :: rest => if leb x y then x :: l else y :: insertBy leb x rest
  end.

Definition sortDocs {A : Type} (leb : A -> A -> bool) (l : list A) : list A :=
  fold_right (insertBy leb) [] l.

(** [.limit(n)]: zero sets no limit, a negative limit counts as its
    absolute value. *)
Definition limitDocs {A : Type} (n : Z) (l : list A) : list A :=
  if n =? 0 then l else take (Z.to_nat (Z.abs n)) l.

(** Order of a sort key that may be missing: a missing value sorts first. *)
Definition optLeb (a b : option Z) : bool :=
  match a, b with
  | None, _ => true
  | Some _, None => false
  | Some x, Some y => x <=? y
  end.

(** [{ key: sortOrder }]: ascending for 1, descending for -1.  Those are
    the two numbers mongoose takes for a sort order; it throws "Invalid
    sort value" for any other, so that what is proved of a sorted result
    is proved for these two. *)
Definition keyLeb {A : Type} (key : A -> option Z) (sortOrder : Z) (x y : A) : bool :=
  if sortOrder <? 0 then optLeb (key y) (key x) else optLeb (key x) (key y).

(** ** The artifact store: [services/cookieService.js], class CookieService *)
Module CookieService.

(** [status] enum of the Cookie schema. *)
Inductive Status := active | inactive | expired | failed.

Definition Status_eqb (a b : Status) : bool :=
  match a, b with
  | active, active | inactive, inactive | expired, expired | failed, failed => true
  | _, _ => false
  end.

(** One payload entry; [expires] is in seconds, absent for some entries. *)
Record CookieEntry := {
  name : string;
  value : string;
  entryDomain : string;
  expires : option Z
}.

Record Source := {
  eventId : option string;
  refreshId : option string;
  proxy : option string;
  userAgent : option string
}.

(** [validity.expiresAt] is not a required field of the schema. *)
Record Validity := {
  isValid : bool;
  expiresAt : option Z;
  lastUsed : Z;
  usageCount : Z
}.

Record Quality := {
  score : Z;
  successRate : Z;
  lastSuccessful : Z
}.

(** A document of the Cookie collection.  [_id] is Mongo's primary key,
    [cookieId] the application identifier (unique index). *)
Record Cookie := {
  _id : nat;
  cookieId : string;
  cookies : option (list CookieEntry);
  source : Source;
  domain : string;
  tags : list string;
  validity : Validity;
  quality : Quality;
  status : Status
}.

Definition Collection := list Cookie.

(** *** storeCookies *)

(** The shapes [cookiesData] is inspected for: an array, an object with a
    [cookies] array, and anything else.  Of the values that are neither,
    [null] and [undefined] make the function throw at line 67, where
    [cookiesData.lastUpdated] is read, before anything is stored; what
    [storeCookies] below does with [DataOther] is what the source does
    with the others. *)
Inductive CookiesData :=
| DataArray (l : list CookieEntry)
| DataWrapped (l : list CookieEntry)
| DataOther.

Definition processedCookies (d : CookiesData) : option (list CookieEntry) :=
  match d with
  | DataArray l => Some l
  | DataWrapped l => Some l
  | DataOther => None
  end.

(** The options of [storeCookies]; of [options.metadata], spread over the
    stored metadata, only a [domain] key matters here. *)
Record StoreOptions := {
  opt_eventId : option string;
  opt_refreshId : option string;
  opt_proxy : option string;
  opt_userAgent : option string;
  opt_domain : option string;
  opt_tags : list string;
  opt_metadata_domain : option string
}.

(** Body of the [forEach] callback, lines 44-51: one step of the search
    for the earliest expiry. *)
Definition expiryStep (now : Z) (earliestExpiry : Z) (cookie : CookieEntry) : Z :=
  match expires cookie with
  | Some e =>
      if 0 <? e then
        let cookieExpiry := e * 1000 in
        if (cookieExpiry <? earliestExpiry) && (now <? cookieExpiry)
        then cookieExpiry else earliestExpiry
      else earliestExpiry
  | None => earliestExpiry
  end.

(** Lines 42-52.  The clock is read once for the whole scan. *)
Definition earliestExpiry (now : Z) (p : option (list CookieEntry)) : Z :=
  let default := now + 24 * 60 * 60 * 1000 in
  match p with
  | Some l => fold_left (expiryStep now) l default
  | None => default
  end.

Definition truthy (s : option string) : option string :=
  match s with
  | Some EmptyString => None
  | o => o
  end.

(** [Cookie.create] under the unique index on [cookieId]: a duplicate key
    makes [storeCookies] return [null] and store nothing. *)
Definition storeCookies (uuid : string) (oid : nat) (now : Z)
    (cookiesData : CookiesData) (options : StoreOptions) (db : Collection)
    : option Cookie * Collection :=
  let processed := processedCookies cookiesData in
  let cookieRecord := {|
    _id := oid;
    cookieId := uuid;
    cookies := processed;
    source := {| eventId := opt_eventId options;
                 refreshId := opt_refreshId options;
                 proxy := opt_proxy options;
                 userAgent := opt_userAgent options |};
    domain := default (default "ticketmaster.com"%string (truthy (opt_domain options)))
                    (opt_metadata_domain options);
    tags := opt_tags options;
    validity := {| isValid := true;
                   expiresAt := Some (earliestExpiry now processed);
                   lastUsed := now;
                   usageCount := 0 |};
    quality := {| score := 100; successRate := 100; lastSuccessful := now |};
    status := active
  |} in
  if existsb (fun c => String.eqb (cookieId c) uuid) db
  then (None, db)
  else (Some cookieRecord, db ++ [cookieRecord]).

(** *** getBestCookies *)

Record Criteria := {
  crit_domain : option string;
  crit_tags : list string;
  excludeUsedRecently : bool;
  maxUsageCount : Z
}.

(** The defaults of the destructuring at lines 221-226. *)
Definition defaultCriteria : Criteria :=
  {| crit_domain := None; crit_tags := [];
     excludeUsedRecently := true; maxUsageCount := 10 |}.

(** Mongo's [$gt] and [$lt] on a date field: a missing field matches
    neither. *)
Definition dateGt (d : option Z) (t : Z) : bool :=
  match d with Some e => t <? e | None => false end.

(** [{ $in: ts }] on an array field: some element of the field is in [ts]. *)
Definition tagsIn (ts docTags : list string) : bool :=
  existsb (fun t => existsb (String.eqb t) ts) docTags.

(** The query built at lines 228-244. *)
Definition bestQuery (now : Z) (cr : Criteria) (c : Cookie) : bool :=
  Status_eqb (status c) active
  && isValid (validity c)
  && dateGt (expiresAt (validity c)) now
  && (50 <=? score (quality c))
  && match truthy (crit_domain cr) with
     | Some d => String.eqb (domain c) d
     | None => true
     end
  && (if 0 <? Z.of_nat (length (crit_tags cr))
      then tagsIn (crit_tags cr) (tags c) else true)
  && (if excludeUsedRecently cr
      then lastUsed (validity c) <? now - 5 * 60 * 1000 else true)
  && (if 0 <? maxUsageCount cr
      then usageCount (validity c) <? maxUsageCount cr else true).

(** Sort order [{ 'quality.score': -1, 'validity.usageCount': 1 }]:
    [a] comes strictly before [b]. *)
Definition sortsBefore (a b : Cookie) : bool :=
  (score (quality b) <? score (quality a))
  || ((score (quality a) =? score (quality b))
      && (usageCount (validity a) <? usageCount (validity b))).

(** [findOne(query).sort(...)]: the first document of the sorted matches;
    among documents the sort does not separate, the earliest stored. *)
Definition pickBest (best : option Cookie) (c : Cookie) : option Cookie :=
  match best with
  | None => Some c
  | Some b => if sortsBefore c b then Some c else Some b
  end.

Definition findOneSorted (q : Cookie -> bool) (db : Collection) : option Cookie :=
  fold_left pickBest (List.filter q db) None.

(** [findByIdAndUpdate]: the update applies to the document with this
    [_id]. *)
Fixpoint updateById (i : nat) (f : Cookie -> Cookie) (db : Collection) : Collection :=
  match db with
  | [] => []
  | c :: rest =>
      if Nat.eqb (_id c) i then f c :: rest else c :: updateById i f rest
  end.

Fixpoint findById (i : nat) (db : Collection) : option Cookie :=
  match db with
  | [] => None
  | c :: rest => if Nat.eqb (_id c) i then Some c else findById i rest
  end.

(** [{ $inc: usageCount, $set: lastUsed }], lines 251-254. *)
Definition markUsed (now : Z) (c : Cookie) : Cookie :=
  {| _id := _id c; cookieId := cookieId c; cookies := cookies c;
     source := source c; domain := domain c; tags := tags c;
     validity := {| isValid := isValid (validity c);
                    expiresAt := expiresAt (validity c);
                    lastUsed := now;
                    usageCount := usageCount (validity c) + 1 |};
     quality := quality c; status := status c |}.

(** Lines 219-262.  The document returned is the one read by [findOne],
    before the usage update. *)
Definition getBestCookies (now : Z) (cr : Criteria) (db : Collection)
    : option Cookie * Collection :=
  match findOneSorted (bestQuery now cr) db with
  | Some cookie => (Some cookie, updateById (_id cookie) (markUsed now) db)
  | None => (None, db)
  end.

(** *** updateCookieQuality *)

Inductive Error := CookieNotFound.

Fixpoint findOneByCookieId (cid : string) (db : Collection) : option Cookie :=
  match db with
  | [] => None
  | c :: rest =>
      if String.eqb (cookieId c) cid then Some c else findOneByCookieId cid rest
  end.

(** The [$set] document built at lines 277-293. *)
Definition qualityUpdate (now : Z) (success : bool) (cookie c : Cookie) : Cookie :=
  if success then
    {| _id := _id c; cookieId := cookieId c; cookies := cookies c;
       source := source c; domain := domain c; tags := tags c;
       validity := validity c;
       quality := {| score := Z.min 100 (score (quality cookie) + 1);
                     successRate := successRate (quality c);
                     lastSuccessful := now |};
       status := status c |}
  else
    let newScore := Z.max 0 (score (quality cookie) - 5) in
    {| _id := _id c; cookieId := cookieId c; cookies := cookies c;
       source := source c; domain := domain c; tags := tags c;
       validity := {| isValid := if newScore <? 20 then false
                                 else isValid (validity c);
                      expiresAt := expiresAt (validity c);
                      lastUsed := lastUsed (validity c);
                      usageCount := usageCount (validity c) |};
       quality := {| score := newScore;
                     successRate := successRate (quality c);
                     lastSuccessful := lastSuccessful (quality c) |};
       status := if newScore <? 20 then failed else status c |}.

(** Lines 270-306; the result is the document after the update. *)
Definition updateCookieQuality (now : Z) (cid : string) (success : bool)
    (db : Collection) : result Error (option Cookie) * Collection :=
  match findOneByCookieId cid db with
  | None => (Throw CookieNotFound, db)
  | Some cookie =>
      let db' := updateById (_id cookie) (qualityUpdate now success cookie) db in
      (Ok (findById (_id cookie) db'), db')
  end.

(** Feedback and selection requests, as issued by consumers. *)
Inductive Request :=
| Feedback (now : Z) (cid : string) (success : bool)
| Select (now : Z) (cr : Criteria).

(** Serving one request: the artifact handed out, if any, and the store. *)
Definition serve (r : Request) (db : Collection) : option Cookie * Collection :=
  match r with
  | Feedback now cid success => (None, snd (updateCookieQuality now cid success db))
  | Select now cr => getBestCookies now cr db
  end.

(** Serving a sequence of requests: every artifact handed out, in order. *)
Fixpoint serveAll (rs : list Request) (db : Collection) : list Cookie * Collection :=
  match rs with
  | [] => ([], db)
  | r :: rest =>
      let '(o, db1) := serve r db in
      let '(os, db2) := serveAll rest db1 in
      (match o with Some c => c :: os | None => os end, db2)
  end.

(** [n] consecutive failure reports for the same artifact. *)
Fixpoint failTimes (n : nat) (now : Z) (cid : string) (db : Collection) : Collection :=
  match n with
  | O => db
  | S k => failTimes k now cid (snd (updateCookieQuality now cid false db))
  end.

(** Both unique keys of the collection. *)
Definition uniqueKeys (db : Collection) : Prop :=
  NoDup (map _id db) /\ NoDup (map cookieId db).

(** Every document carrying this [cookieId] is in status [failed]. *)
Definition retired (cid : string) (db : Collection) : Prop :=
  forall x, In x db -> cookieId x = cid -> status x = failed.

(** The expiries of a payload, in milliseconds, that lie strictly in the
    future; entries without a positive [expires] have none. *)
Definition futureExpiries (now : Z) (l : list CookieEntry) : list Z :=
  flat_map (fun cookie =>
              match expires cookie with
              | Some e => if (0 <? e) && (now <? e * 1000) then [e * 1000] else []
              | None => []
              end) l.

Definition minimum (l : list Z) : option Z :=
  match l with
  | [] => None
  | x :: rest => Some (fold_left Z.min rest x)
  end.

(** The expiry as the specification words it: the minimum future expiry
    among the payload entries, and now+24h only when there is none. *)
Definition specifiedExpiry (now : Z) (l : list CookieEntry) : Z :=
  default (now + 24 * 60 * 60 * 1000) (minimum (futureExpiries now l)).

(** A stored artifact for examples: identifiers, score, expiry and usage
    count as given, last used at instant 0. *)
Definition sampleCookie (i : nat) (cid : string) (sc : Z) (exp : option Z)
    (used : Z) : Cookie :=
  {| _id := i; cookieId := cid; cookies := Some [];
     source := {| eventId := None; refreshId := None; proxy := None; userAgent := None |};
     domain := "ticketmaster.com"; tags := ["auto-generated"%string];
     validity := {| isValid := true; expiresAt := exp; lastUsed := 0; usageCount := used |};
     quality := {| score := sc; successRate := 100; lastSuccessful := 0 |};
     status := active |}.

Definition sampleStore : Collection :=
  [ sampleCookie 1 "a" 100 (Some 500000) 0;
    sampleCookie 2 "b" 90 (Some 2000000) 3;
    sampleCookie 3 "c" 100 (Some 3000000) 1 ].

Definition sampleOptions : StoreOptions :=
  {| opt_eventId := None; opt_refreshId := None; opt_proxy := None;
     opt_userAgent := None; opt_domain := None; opt_tags := [];
     opt_metadata_domain := None |}.

Definition sampleEntry (expires : option Z) : CookieEntry :=
  {| name := "auth_token"; value := "x"; entryDomain := "ticketmaster.com";
     expires := expires |}.

(** The default criteria without the five-minute rest between uses. *)
Definition noRest : Criteria :=
  {| crit_domain := None; crit_tags := [];
     excludeUsedRecently := false; maxUsageCount := 10 |}.

(** An instant, and payloads whose only entry expires one hour and 48
    hours after it. *)
Definition sampleNow : Z := 1700000000000.

Definition payloadHourAhead : list CookieEntry :=
  [sampleEntry (Some (1700000000 + 60 * 60))].

Definition payloadTwoDaysAhead : list CookieEntry :=
  [sampleEntry (Some (1700000000 + 48 * 60 * 60))].

(** *** getCookies *)

(** The sort paths of [getCookies] that the document model carries. *)
Inductive SortKey := byScore | byExpiresAt | byLastUsed | byUsageCount.

Definition sortValue (k : SortKey) (c : Cookie) : option Z :=
  match k with
  | byScore => Some (score (quality c))
  | byExpiresAt => expiresAt (validity c)
  | byLastUsed => Some (lastUsed (validity c))
  | byUsageCount => Some (usageCount (validity c))
  end.

(** The options of [getCookies]; [None] stands for [null]. *)
Record GetOptions := {
  go_status : option Status;
  go_isValid : option bool;
  go_limit : Z;
  go_sortBy : SortKey;
  go_sortOrder : Z;
  go_tags : list string;
  go_eventId : option string;
  go_domain : option string;
  go_minQualityScore : Z
}.

(** The defaults of the destructuring at lines 106-116. *)
Definition defaultGetOptions : GetOptions :=
  {| go_status := Some active; go_isValid := Some true; go_limit := 10;
     go_sortBy := byScore; go_sortOrder := -1; go_tags := [];
     go_eventId := None; go_domain := None; go_minQualityScore := 0 |}.

(** The query built at lines 119-128. *)
Definition cookiesQuery (now : Z) (o : GetOptions) (c : Cookie) : bool :=
  match go_status o with
  | Some s => Status_eqb (status c) s
  | None => true
  end
  && match go_isValid o with
     | Some b => Bool.eqb (isValid (validity c)) b
     | None => true
     end
  && (if 0 <? Z.of_nat (length (go_tags o))
      then tagsIn (go_tags o) (tags c) else true)
  && match truthy (go_eventId o) with
     | Some e =>
         match eventId (source c) with
         | Some e' => String.eqb e' e
         | None => false
         end
     | None => true
     end
  && match truthy (go_domain o) with
     | Some d => String.eqb (domain c) d
     | None => true
     end
  && (if 0 <? go_minQualityScore o
      then go_minQualityScore o <=? score (quality c) else true)
  && dateGt (expiresAt (validity c)) now.

(** Lines 104-139, for a [sortOrder] of 1 or -1; with any other the query
    is rejected and the function throws. *)
Definition getCookies (now : Z) (o : GetOptions) (db : Collection) : list Cookie :=
  limitDocs (go_limit o)
    (sortDocs (keyLeb (sortValue (go_sortBy o)) (go_sortOrder o))
       (List.filter (cookiesQuery now o) db)).


(** *** Eviction *)

(** [{ $lt: t }] on a date field. *)
Definition dateLt (d : option Z) (t : Z) : bool :=
  match d with Some e => e <? t | None => false end.

(** [deleteMany(q)]: the number of documents deleted and what is left. *)
Definition deleteMany (q : Cookie -> bool) (db : Collection) : Z * Collection :=
  (Z.of_nat (length (List.filter q db)), List.filter (fun c => negb (q c)) db).

Record CleanupResult := {
  deletedCount : Z;
  deletedExpired : Z;
  deletedInvalid : Z
}.

(** Lines 159-190.  [updatedAt] gives the time of last modification that
    Mongoose keeps for the document with a given [_id]. *)
Definition cleanupExpiredCookies (now : Z) (updatedAt : nat -> Z) (db : Collection)
    : CleanupResult * Collection :=
  let '(expiredCount, db1) :=
    deleteMany (fun c => dateLt (expiresAt (validity c)) now) db in
  let '(invalidCount, db2) :=
    deleteMany (fun c => negb (isValid (validity c))
                         && (updatedAt (_id c) <? now - 24 * 60 * 60 * 1000)) db1 in
  ({| deletedCount := expiredCount + invalidCount;
      deletedExpired := expiredCount;
      deletedInvalid := invalidCount |}, db2).

(** The [$or] of lines 360-364. *)
Definition cleanupQuery (now : Z) (c : Cookie) : bool :=
  dateLt (expiresAt (validity c)) now
  || Status_eqb (status c) failed
  || (score (quality c) <? 10).

(** Lines 357-373. *)
Definition cleanup (now : Z) (db : Collection) : Z * Collection :=
  deleteMany (cleanupQuery now) db.

(** *** updateCookieUsage *)

(** [findOneAndUpdate({ cookieId }, ..., { new: true })]. *)
Fixpoint updateByCookieId (cid : string) (f : Cookie -> Cookie) (db : Collection)
    : option Cookie * Collection :=
  match db with
  | [] => (None, [])
  | c :: rest =>
      if String.eqb (cookieId c) cid then (Some (f c), f c :: rest)
      else let '(r, rest') := updateByCookieId cid f rest in (r, c :: rest')
  end.

(** Lines 197-212. *)
Definition updateCookieUsage (now : Z) (cid : string) (db : Collection)
    : option Cookie * Collection :=
  updateByCookieId cid (markUsed now) db.

(** *** Any sequence of store operations *)

Inductive StoreOp :=
| OpStore (uuid : string) (oid : nat) (now : Z) (cookiesData : CookiesData)
          (options : StoreOptions)
| OpSelect (now : Z) (cr : Criteria)
| OpFeedback (now : Z) (cid : string) (success : bool)
| OpUsage (now : Z) (cid : string)
| OpCleanup (now : Z)
| OpCleanupExpired (now : Z) (updatedAt : nat -> Z).

Definition applyOp (db : Collection) (op : StoreOp) : Collection :=
  match op with
  | OpStore uuid oid now cookiesData options =>
      snd (storeCookies uuid oid now cookiesData options db)
  | OpSelect now cr => snd (getBestCookies now cr db)
  | OpFeedback now cid success => snd (updateCookieQuality now cid success db)
  | OpUsage now cid => snd (updateCookieUsage now cid db)
  | OpCleanup now => snd (cleanup now db)
  | OpCleanupExpired now updatedAt => snd (cleanupExpiredCookies now updatedAt db)
  end.

Definition scoresInRange (db : Collection) : Prop :=
  Forall (fun c => 0 <= score (quality c) <= 100) db.

End CookieService.

(** ** JavaScript values reaching the trackers from request bodies *)
#[warnings="-register-all"] Inductive JsValue :=
| JsUndefined
| JsNull
| JsBool (b : bool)
| JsNumber (n : Z)
| JsString (s : string)
| JsObject (fields : list (string * JsValue)).

Definition typeof (v : JsValue) : string :=
  match v with
  | JsUndefined => "undefined"
  | JsNull => "object"
  | JsBool _ => "boolean"
  | JsNumber _ => "number"
  | JsString _ => "string"
  | JsObject _ => "object"
  end.

Definition toBoolean (v : JsValue) : bool :=
  match v with
  | JsUndefined | JsNull => false
  | JsBool b => b
  | JsNumber n => negb (n =? 0)
  | JsString s => negb (String.eqb s "")
  | JsObject _ => true
  end.

(** [a || b]. *)
Definition jsOr (a b : JsValue) : JsValue := if toBoolean a then a else b.

(** [v?.k]: the property [k] of an object, [undefined] elsewhere. *)
Definition optGet (v : JsValue) (k : string) : JsValue :=
  match v with
  | JsObject fields =>
      match List.find (fun kv => String.eqb (fst kv) k) fields with
      | Some kv => snd kv
      | None => JsUndefined
      end
  | _ => JsUndefined
  end.

(** A parameter declared [= null]: [undefined] becomes [null]. *)
Definition orNull (v : JsValue) : JsValue :=
  match v with JsUndefined => JsNull | _ => v end.

(** ** The refresh trackers *)
Module CookieRefreshTracker.

Inductive Status := in_progress | success | failed.

Definition Status_eqb (a b : Status) : bool :=
  match a, b with
  | in_progress, in_progress | success, success | failed, failed => true
  | _, _ => false
  end.

(** What a document holds under [duration]: a number of milliseconds, or
    the operator document [{ $subtract: [completionTime, path] }] where
    one was stored as it was written. *)
Inductive Duration :=
| Millis (ms : Z)
| SubtractDoc (completionTime : Z) (path : string).

(** A value of the [metadata] object: a string, or the array
    [[path, object]] that the key [$mergeObjects] of a stored operator
    document holds. *)
Inductive MetaValue :=
| MetaString (s : string)
| MergeObjectsArgs (path : string) (object : gmap string string).

(** A document of the CookieRefresh collection.  Fields a tracker sets
    only on completion are absent ([None]) before. *)
Record CookieRefresh := {
  refreshId : string;
  status : Status;
  eventId : JsValue;
  startTime : Z;
  proxy : JsValue;
  metadata : gmap string MetaValue;
  completionTime : option Z;
  nextScheduledRefresh : option Z;
  cookieCount : option Z;
  retryCount : option Z;
  duration : option Duration;
  errorMessage : option string;
  consecutiveFailures : option Z
}.

Definition Collection := list CookieRefresh.

(** [{ ...a, ...b }]: the keys of [b] win. *)
Definition spread {V : Type} (a b : gmap string V) : gmap string V := b ∪ a.

Fixpoint findOne (q : CookieRefresh -> bool) (db : Collection) : option CookieRefresh :=
  match db with
  | [] => None
  | r :: rest => if q r then Some r else findOne q rest
  end.

(** [findOneAndUpdate(q, u, { new: true })]: the first match is updated
    and returned as updated; [None] stands for [null]. *)
Fixpoint findOneAndUpdate (q : CookieRefresh -> bool)
    (u : CookieRefresh -> CookieRefresh) (db : Collection)
    : option (CookieRefresh * Collection) :=
  match db with
  | [] => None
  | r :: rest =>
      if q r then Some (u r, u r :: rest)
      else match findOneAndUpdate q u rest with
           | Some (r', rest') => Some (r', r :: rest')
           | None => None
           end
  end.

Definition byRefreshId (id : string) (r : CookieRefresh) : bool :=
  String.eqb (refreshId r) id.

Definition byRefreshIdInProgress (id : string) (r : CookieRefresh) : bool :=
  String.eqb (refreshId r) id && Status_eqb (status r) in_progress.

(** The document [CookieRefresh.create] stores.  The schema is not part of
    the sources at hand: the value it gives a new document's
    [consecutiveFailures] is the parameter [schemaDefault]. *)
Definition created (schemaDefault : option Z) (uuid : string) (now : Z)
    (eventId proxyString : JsValue) (metadata : gmap string string) : CookieRefresh :=
  {| refreshId := uuid; status := in_progress; eventId := eventId;
     startTime := now; proxy := proxyString;
     metadata := MetaString <$> metadata;
     completionTime := None; nextScheduledRefresh := None;
     cookieCount := None; retryCount := None; duration := None;
     errorMessage := None; consecutiveFailures := schemaDefault |}.

(** *** The plain variant: [services/cookieRefreshTracker.js] *)
Module Plain.

Definition startRefresh (schemaDefault : option Z) (uuid : string) (now : Z)
    (eventId proxy : JsValue) (metadata : gmap string string) (db : Collection)
    : CookieRefresh * Collection :=
  let eventId := orNull eventId in
  let proxy := orNull proxy in
  let proxyString := jsOr (jsOr (optGet proxy "proxy") proxy) (JsString "no_proxy") in
  let refreshRecord := created schemaDefault uuid now eventId proxyString metadata in
  (refreshRecord, db ++ [refreshRecord]).

(** Lines 45-75. *)
Definition markSuccess (now : Z) (refreshId : string) (cookieCount retryCount : Z)
    (metadata : gmap string string) (db : Collection)
    : option CookieRefresh * Collection :=
  let completionTime := now in
  let nextScheduledRefresh := completionTime + 30 * 60 * 1000 in
  let startRecord := findOne (byRefreshId refreshId) db in
  let duration := (fun r => Millis (completionTime - startTime r)) <$> startRecord in
  let startMetadata := default ∅ (CookieRefreshTracker.metadata <$> startRecord) in
  let update r :=
    {| refreshId := CookieRefreshTracker.refreshId r; status := success;
       eventId := eventId r; startTime := startTime r; proxy := proxy r;
       metadata := spread startMetadata (MetaString <$> metadata);
       completionTime := Some completionTime;
       nextScheduledRefresh := Some nextScheduledRefresh;
       cookieCount := Some cookieCount;
       retryCount := Some retryCount;
       duration := duration;
       errorMessage := errorMessage r;
       consecutiveFailures := consecutiveFailures r |} in
  match findOneAndUpdate (byRefreshId refreshId) update db with
  | Some (refreshRecord, db') => (Some refreshRecord, db')
  | None => (None, db)
  end.

(** Lines 85-116. *)
Definition markFailed (now : Z) (refreshId : string) (errorMessage : string)
    (retryCount : Z) (metadata : gmap string string) (db : Collection)
    : option CookieRefresh * Collection :=
  let completionTime := now in
  let nextScheduledRefresh := completionTime + 5 * 60 * 1000 in
  let startRecord := findOne (byRefreshId refreshId) db in
  let duration := (fun r => Millis (completionTime - startTime r)) <$> startRecord in
  let startMetadata := default ∅ (CookieRefreshTracker.metadata <$> startRecord) in
  let update r :=
    {| refreshId := CookieRefreshTracker.refreshId r; status := failed;
       eventId := eventId r; startTime := startTime r; proxy := proxy r;
       metadata := spread startMetadata (MetaString <$> metadata);
       completionTime := Some completionTime;
       nextScheduledRefresh := Some nextScheduledRefresh;
       cookieCount := cookieCount r;
       retryCount := Some retryCount;
       duration := duration;
       errorMessage := Some errorMessage;
       consecutiveFailures := consecutiveFailures r |} in
  match findOneAndUpdate (byRefreshId refreshId) update db with
  | Some (refreshRecord, db') => (Some refreshRecord, db')
  | None => (None, db)
  end.

(** Lines 171-186: the latest successful refresh decides. *)
Definition isRefreshDue (now : Z) (db : Collection) : bool :=
  let lastSuccessful :=
    head (sortDocs (keyLeb completionTime (-1))
            (List.filter (fun r => Status_eqb (status r) success) db)) in
  match lastSuccessful with
  | None => true
  | Some r =>
      match nextScheduledRefresh r with
      | Some t => t <=? now
      | None => false
      end
  end.

(** Lines 247-260: every record started before the cutoff is deleted. *)
Definition cleanup (now maxAge : Z) (db : Collection) : Z * Collection :=
  let cutoffDate := now - maxAge in
  (Z.of_nat (length (List.filter (fun r => startTime r <? cutoffDate) db)),
   List.filter (fun r => negb (startTime r <? cutoffDate)) db).

End Plain.

(** *** The enhanced variant: [services/cookieRefreshService.js] *)
Module Enhanced.

(** The CookieRefresh schema is not part of the sources at hand, and it
    decides what the completion reports do.  Their update documents (lines
    340-349 and 405-414) give [duration] and [metadata] the operator
    documents [{ $subtract: [...] }] and [{ $mergeObjects: [...] }] as
    values.  The update is a classic one, not an aggregation pipeline, so
    the operators are never evaluated: mongoose casts the two values
    against the schema before it queries.  Where the schema declares
    [duration] a Number, as [getStats] and the two other variants use it,
    the cast throws before the update is sent and nothing is written;
    where it declares the two paths Mixed the documents pass the cast and
    are stored as they are written. *)
Inductive Schema := DurationNumber | DurationMixed.

Inductive Error :=
| ValidationFailed (errors : list string)
| AssignmentToConstant
| ErrorMessageInvalid
| RecordNotFound
| NotFoundOrAlreadyCompleted
| CastError.

(** The error of a well-formed report on a record that is there but no
    longer in progress. *)
Definition settledError (schema : Schema) : Error :=
  match schema with
  | DurationNumber => CastError
  | DurationMixed => NotFoundOrAlreadyCompleted
  end.

(** Lines 235-251. *)
Definition validateInput (refreshId eventId proxy : JsValue) : list string :=
  (if toBoolean refreshId && negb (String.eqb (typeof refreshId) "string")
   then ["refreshId must be a string"%string] else [])
  ++ (if toBoolean eventId && negb (String.eqb (typeof eventId) "string")
      then ["eventId must be a string"%string] else [])
  ++ (if toBoolean proxy && negb (String.eqb (typeof proxy) "string")
         && negb (String.eqb (typeof proxy) "object")
      then ["proxy must be a string or object"%string] else []).

(** Lines 258-263.  [Math.pow] is modelled on the non-negative
    exponents, that is for [consecutiveFailures >= 1]. *)
Definition calculateBackoffDelay (consecutiveFailures : Z) : Z :=
  let baseDelay := 5 * 60 * 1000 in
  let maxDelay := 60 * 60 * 1000 in
  let exponentialDelay := baseDelay * 2 ^ (Z.min (consecutiveFailures - 1) 4) in
  Z.min exponentialDelay maxDelay.

(** Lines 276-311.  [DISABLE_PROXIES] is the value of the environment
    variable; the assignment at line 289 targets a [const] binding. *)
Definition startRefresh (DISABLE_PROXIES : option string)
    (schemaDefault : option Z) (uuid : string) (now : Z)
    (eventId proxy : JsValue) (metadata : gmap string string) (db : Collection)
    : result Error CookieRefresh * Collection :=
  let eventId := orNull eventId in
  let proxy := orNull proxy in
  let validationErrors := validateInput JsNull eventId proxy in
  if (0 <? length validationErrors)%nat then (Throw (ValidationFailed validationErrors), db)
  else
    let proxyString := jsOr (jsOr (optGet proxy "proxy") proxy) (JsString "no_proxy") in
    if bool_decide (DISABLE_PROXIES = Some "true"%string)
    then (Throw AssignmentToConstant, db)
    else
      let metadata' :=
        <["source" := "api"%string]>
          (<["userAgent" :=
               match metadata !! "userAgent"%string with
               | Some (String a s) => String a s
               | _ => "cookies-service/1.0"%string
               end]> metadata) in
      let refreshRecord := created schemaDefault uuid now eventId proxyString metadata' in
      (Ok refreshRecord, db ++ [refreshRecord]).

(** Lines 321-363.  [$setOnInsert] has no effect without [upsert]. *)
Definition markSuccess (schema : Schema) (now : Z) (refreshId : string)
    (cookieCount retryCount : Z) (metadata : gmap string string) (db : Collection)
    : result Error CookieRefresh * Collection :=
  let validationErrors := validateInput (JsString refreshId) JsNull JsNull in
  if (0 <? length validationErrors)%nat then (Throw (ValidationFailed validationErrors), db)
  else
    let completionTime := now in
    let nextScheduledRefresh := completionTime + 30 * 60 * 1000 in
    let update r :=
      {| refreshId := CookieRefreshTracker.refreshId r; status := success;
         eventId := eventId r; startTime := startTime r; proxy := proxy r;
         metadata := {[ "$mergeObjects"%string := MergeObjectsArgs "$metadata" metadata ]};
         completionTime := Some completionTime;
         nextScheduledRefresh := Some nextScheduledRefresh;
         cookieCount := Some (Z.max 0 cookieCount);
         retryCount := Some (Z.max 0 retryCount);
         duration := Some (SubtractDoc completionTime "$startTime");
         errorMessage := errorMessage r;
         consecutiveFailures := consecutiveFailures r |} in
    match schema with
    | DurationNumber => (Throw CastError, db)
    | DurationMixed =>
        match findOneAndUpdate (byRefreshIdInProgress refreshId) update db with
        | Some (refreshRecord, db') => (Ok refreshRecord, db')
        | None => (Throw NotFoundOrAlreadyCompleted, db)
        end
    end.

(** Lines 373-428. *)
Definition markFailed (schema : Schema) (now : Z) (refreshId : string)
    (errorMessage : JsValue) (retryCount : Z) (metadata : gmap string string)
    (db : Collection)
    : result Error CookieRefresh * Collection :=
  let validationErrors := validateInput (JsString refreshId) JsNull JsNull in
  if (0 <? length validationErrors)%nat then (Throw (ValidationFailed validationErrors), db)
  else
    match errorMessage with
    | JsString (String a s) =>
        let completionTime := now in
        match findOne (byRefreshId refreshId) db with
        | None => (Throw RecordNotFound, db)
        | Some currentRecord =>
            let consecutiveFailures :=
              default 0 (CookieRefreshTracker.consecutiveFailures currentRecord) + 1 in
            let backoffDelay := calculateBackoffDelay consecutiveFailures in
            let nextScheduledRefresh := completionTime + backoffDelay in
            let update r :=
              {| refreshId := CookieRefreshTracker.refreshId r; status := failed;
                 eventId := eventId r; startTime := startTime r; proxy := proxy r;
                 metadata :=
                   {[ "$mergeObjects"%string := MergeObjectsArgs "$metadata" metadata ]};
                 completionTime := Some completionTime;
                 nextScheduledRefresh := Some nextScheduledRefresh;
                 cookieCount := cookieCount r;
                 retryCount := Some (Z.max 0 retryCount);
                 duration := Some (SubtractDoc completionTime "$startTime");
                 errorMessage := Some (String.substring 0 500 (String a s));
                 consecutiveFailures := Some consecutiveFailures |} in
            match schema with
            | DurationNumber => (Throw CastError, db)
            | DurationMixed =>
                match findOneAndUpdate (byRefreshIdInProgress refreshId) update db with
                | Some (refreshRecord, db') => (Ok refreshRecord, db')
                | None => (Throw NotFoundOrAlreadyCompleted, db)
                end
            end
        end
    | _ => (Throw ErrorMessageInvalid, db)
    end.

(** A completion report for an attempt. *)
Inductive Report :=
| ReportSuccess (cookieCount retryCount : Z) (metadata : gmap string string)
| ReportFailed (errorMessage : JsValue) (retryCount : Z) (metadata : gmap string string).

Definition report (schema : Schema) (now : Z) (refreshId : string) (r : Report)
    (db : Collection) : result Error CookieRefresh * Collection :=
  match r with
  | ReportSuccess cookieCount retryCount metadata =>
      markSuccess schema now refreshId cookieCount retryCount metadata db
  | ReportFailed errorMessage retryCount metadata =>
      markFailed schema now refreshId errorMessage retryCount metadata db
  end.

(** The report passes the argument checks of [markFailed]. *)
Definition wellFormed (r : Report) : Prop :=
  match r with
  | ReportSuccess _ _ _ => True
  | ReportFailed errorMessage _ _ =>
      toBoolean errorMessage = true /\ typeof errorMessage = "string"%string
  end.

(** The filter of a stuck operation, lines 577-580 and 598-601. *)
Definition isStuck (cutoffTime : Z) (r : CookieRefresh) : bool :=
  Status_eqb (status r) in_progress && (startTime r <? cutoffTime).


(** The update of lines 602-607. *)
Definition resetRecord (now : Z) (r : CookieRefresh) : CookieRefresh :=
  {| refreshId := CookieRefreshTracker.refreshId r; status := failed;
     eventId := eventId r; startTime := startTime r; proxy := proxy r;
     metadata := CookieRefreshTracker.metadata r;
     completionTime := Some now;
     nextScheduledRefresh := Some (now + 5 * 60 * 1000);
     cookieCount := cookieCount r; retryCount := retryCount r;
     duration := duration r;
     errorMessage := Some "Operation timed out and was reset automatically"%string;
     consecutiveFailures := consecutiveFailures r |}.

(** Lines 594-616: [updateMany]; the result is the number modified. *)
Definition resetStuckOperations (now maxDurationMs : Z) (db : Collection)
    : Z * Collection :=
  let cutoffTime := now - maxDurationMs in
  (Z.of_nat (length (List.filter (isStuck cutoffTime) db)),
   map (fun r => if isStuck cutoffTime r then resetRecord now r else r) db).

Definition isTerminal (r : CookieRefresh) : bool :=
  Status_eqb (status r) success || Status_eqb (status r) failed.

(** Lines 553-567: only completed records are deleted. *)
Definition cleanup (now maxAge : Z) (db : Collection) : Z * Collection :=
  let cutoffDate := now - maxAge in
  (Z.of_nat (length (List.filter
                       (fun r => (startTime r <? cutoffDate) && isTerminal r) db)),
   List.filter (fun r => negb ((startTime r <? cutoffDate) && isTerminal r)) db).

End Enhanced.

(** *** The first variant of [services/cookieRefreshService.js] *)
Module Standalone.

Inductive Error := RecordNotFound.

(** Lines 15-30. *)
Definition startRefresh (schemaDefault : option Z) (uuid : string) (now : Z)
    (eventId proxy : JsValue) (metadata : gmap string string) (db : Collection)
    : CookieRefresh * Collection :=
  let proxyString := jsOr (jsOr (optGet proxy "proxy") proxy) (JsString "no_proxy") in
  let refreshRecord := created schemaDefault uuid now eventId proxyString metadata in
  (refreshRecord, db ++ [refreshRecord]).

(** Lines 40-69. *)
Definition markSuccess (now : Z) (refreshId : string) (cookieCount retryCount : Z)
    (metadata : gmap string string) (db : Collection)
    : result Error (option CookieRefresh) * Collection :=
  let completionTime := now in
  match findOne (byRefreshId refreshId) db with
  | None => (Throw RecordNotFound, db)
  | Some refreshRecord =>
      let duration := completionTime - startTime refreshRecord in
      let nextScheduledRefresh := completionTime + 30 * 60 * 1000 in
      let update r :=
        {| refreshId := CookieRefreshTracker.refreshId r; status := success;
           eventId := eventId r; startTime := startTime r; proxy := proxy r;
           metadata := spread (CookieRefreshTracker.metadata refreshRecord)
                              (MetaString <$> metadata);
           completionTime := Some completionTime;
           nextScheduledRefresh := Some nextScheduledRefresh;
           cookieCount := Some cookieCount;
           retryCount := Some retryCount;
           duration := Some (Millis duration);
           errorMessage := errorMessage r;
           consecutiveFailures := consecutiveFailures r |} in
      match findOneAndUpdate (byRefreshId refreshId) update db with
      | Some (updatedRecord, db') => (Ok (Some updatedRecord), db')
      | None => (Ok None, db)
      end
  end.

(** Lines 79-109. *)
Definition markFailed (now : Z) (refreshId : string) (errorMessage : string)
    (retryCount : Z) (metadata : gmap string string) (db : Collection)
    : result Error (option CookieRefresh) * Collection :=
  let completionTime := now in
  match findOne (byRefreshId refreshId) db with
  | None => (Throw RecordNotFound, db)
  | Some refreshRecord =>
      let duration := completionTime - startTime refreshRecord in
      let nextScheduledRefresh := completionTime + 5 * 60 * 1000 in
      let update r :=
        {| refreshId := CookieRefreshTracker.refreshId r; status := failed;
           eventId := eventId r; startTime := startTime r; proxy := proxy r;
           metadata := spread (CookieRefreshTracker.metadata refreshRecord)
                              (MetaString <$> metadata);
           completionTime := Some completionTime;
           nextScheduledRefresh := Some nextScheduledRefresh;
           cookieCount := cookieCount r;
           retryCount := Some retryCount;
           duration := Some (Millis duration);
           errorMessage := Some errorMessage;
           consecutiveFailures := consecutiveFailures r |} in
      match findOneAndUpdate (byRefreshId refreshId) update db with
      | Some (updatedRecord, db') => (Ok (Some updatedRecord), db')
      | None => (Ok None, db)
      end
  end.

End Standalone.

(** Two attempts on the same event, each reported failed, in the enhanced
    tracker; [d] is the schema's default for [consecutiveFailures]. *)
Definition twoFailedAttempts (schema : Enhanced.Schema) (d : option Z) : Collection :=
  let db1 := snd (Enhanced.startRefresh None d "r1" 1000 (JsString "E1") JsNull ∅ []) in
  let db2 := snd (Enhanced.markFailed schema 2000 "r1" (JsString "timeout") 0 ∅ db1) in
  let db3 := snd (Enhanced.startRefresh None d "r2" 3000 (JsString "E1") JsNull ∅ db2) in
  snd (Enhanced.markFailed schema 4000 "r2" (JsString "timeout") 0 ∅ db3).

(** One attempt in progress, in either tracker. *)
Definition oneAttempt : Collection :=
  snd (Plain.startRefresh None "r1" 1000 (JsString "E1") JsNull ∅ []).

(** The attempt reported successful to the plain tracker, and then
    reported failed. *)
Definition plainSucceeded : Collection :=
  snd (Plain.markSuccess 2000 "r1" 3 0 ∅ oneAttempt).

Definition plainThenFailed : option CookieRefresh * Collection :=
  Plain.markFailed 3000 "r1" "late" 0 ∅ plainSucceeded.

(** The attempt reported successful to the enhanced tracker, under a
    schema that stores the operator documents. *)
Definition enhancedSucceeded : Collection :=
  snd (Enhanced.markSuccess Enhanced.DurationMixed 2000 "r1" 3 0 ∅ oneAttempt).

(** A stuck attempt, a recent one in progress and a completed one. *)
Definition sampleAttempts : Collection :=
  [ created None "old" 0 (JsString "E1") JsNull ∅;
    created None "new" 5000000 (JsString "E2") JsNull ∅ ]
  ++ plainSucceeded.

End CookieRefreshTracker.

(** ** The proxy rotator: [getRandomProxy] of the browser-cookies module *)
Module ProxyRotator.

(** An entry of [proxyHelper.proxies]; [proxy] is the [host:port] string the
    failed set is keyed by. *)
Record Proxy := {
  proxy : string;
  username : string;
  password : string
}.

Inductive Error := SelectedProxyUndefined.

(** [availableProxies[randomIndex]]. *)
Definition at_index (l : list Proxy) (i : Z) : option Proxy :=
  if i <? 0 then None else l !! Z.to_nat i.

(** [Math.floor(Math.random() * n)], with [random] the value drawn. *)
Definition randomIndex (random : Q) (n : nat) : Z :=
  Qfloor (random * inject_Z (Z.of_nat n)).

(** Lines 89-115.  [proxies] is [proxyHelper.proxies], [failedProxies] the
    module-level set; the result carries the set as the call leaves it.
    [Ok None] is the [null] returned when there is no proxy. *)
Definition getRandomProxy (random : Q) (avoidFailedProxies : bool)
    (proxies : list Proxy) (failedProxies : gset string)
    : result Error (option Proxy) * gset string :=
  if (length proxies =? 0)%nat then (Ok None, failedProxies)
  else
    let '(availableProxies, failedProxies') :=
      if avoidFailedProxies && (0 <? size failedProxies)%nat then
        let availableProxies :=
          List.filter (fun p => bool_decide (proxy p ∉ failedProxies)) proxies in
        if (length availableProxies =? 0)%nat
        then (proxies, (∅ : gset string))
        else (availableProxies, failedProxies)
      else (proxies, failedProxies) in
    match at_index availableProxies (randomIndex random (length availableProxies)) with
    | Some selectedProxy => (Ok (Some selectedProxy), failedProxies')
    | None => (Throw SelectedProxyUndefined, failedProxies')
    end.

(** Two proxies, both marked failed. *)
Definition sampleProxies : list Proxy :=
  [ {| proxy := "10.0.0.1:8080"; username := "u"; password := "p" |};
    {| proxy := "10.0.0.2:8080"; username := "u"; password := "p" |} ].

Definition allFailed : gset string :=
  {[ "10.0.0.1:8080"%string; "10.0.0.2:8080"%string ]}.

(** *** markProxyAsFailed and its timers *)

(** The failed set together with the timers [markProxyAsFailed] has set
    and that have not fired yet: due time and proxy string. *)
Record Health := {
  failed : gset string;
  pending : list (Z * string)
}.

Definition noFailures : Health := {| failed := ∅; pending := [] |}.

(** Lines 120-131: nothing for an empty (or absent) proxy string. *)
Definition markProxyAsFailed (now : Z) (proxyString : string) (h : Health) : Health :=
  if String.eqb proxyString "" then h
  else {| failed := {[ proxyString ]} ∪ failed h;
          pending := pending h ++ [(now + 10 * 60 * 1000, proxyString)] |}.

(** The callbacks of the timers due by [now] run: each deletes its proxy
    from the failed set. *)
Definition runTimers (now : Z) (h : Health) : Health :=
  {| failed :=
       fold_left (fun s t => s ∖ {[ snd t ]})
                 (List.filter (fun t => fst t <=? now) (pending h)) (failed h);
     pending := List.filter (fun t => negb (fst t <=? now)) (pending h) |}.

(** What happens to the rotator: a proxy is marked failed, or one is picked. *)
Inductive Event :=
| Marked (now : Z) (proxyString : string)
| Picked (now : Z) (random : Q) (avoidFailedProxies : bool).

Definition at_time (e : Event) : Z :=
  match e with Marked now _ => now | Picked now _ _ => now end.

(** An event at instant [now] finds the timers due by then fired. *)
Definition step (proxies : list Proxy) (h : Health) (e : Event) : Health :=
  let h1 := runTimers (at_time e) h in
  match e with
  | Marked now proxyString => markProxyAsFailed now proxyString h1
  | Picked now random avoidFailedProxies =>
      {| failed := snd (getRandomProxy random avoidFailedProxies proxies (failed h1));
         pending := pending h1 |}
  end.

(** *** getFreshProxy *)

Inductive FreshError :=
| PickFailed (e : Error)
| FreshProxyNull.

Definition liftPick (r : result Error (option Proxy) * gset string)
    : result FreshError (option Proxy) * gset string :=
  match r with
  | (Ok o, s) => (Ok o, s)
  | (Throw e, s) => (Throw (PickFailed e), s)
  end.

(** The loop of lines 145-155 with [fuel] attempts left, then the
    fallback of line 158; [draws k] is the value of the [k]-th call of
    [Math.random]. *)
Fixpoint freshLoop (fuel : nat) (draws : nat -> Q) (k : nat)
    (currentProxy : option Proxy) (proxies : list Proxy) (failedProxies : gset string)
    : result FreshError (option Proxy) * gset string :=
  match fuel with
  | O => liftPick (getRandomProxy (draws k) false proxies failedProxies)
  | S fuel' =>
      match getRandomProxy (draws k) true proxies failedProxies with
      | (Ok (Some freshProxy), failedProxies') =>
          let differs :=
            match currentProxy with
            | None => true
            | Some current =>
                String.eqb (proxy current) ""
                || negb (String.eqb (proxy freshProxy) (proxy current))
            end in
          if differs then (Ok (Some freshProxy), failedProxies')
          else freshLoop fuel' draws (S k) currentProxy proxies failedProxies'
      | (Ok None, failedProxies') => (Throw FreshProxyNull, failedProxies')
      | (Throw e, failedProxies') => (Throw (PickFailed e), failedProxies')
      end
  end.

(** Lines 136-159. *)
Definition getFreshProxy (draws : nat -> Q) (currentProxy : option Proxy)
    (proxies : list Proxy) (failedProxies : gset string)
    : result FreshError (option Proxy) * gset string :=
  if (length proxies <=? 1)%nat
  then liftPick (getRandomProxy (draws 0%nat) true proxies failedProxies)
  else freshLoop 10 draws 0 currentProxy proxies failedProxies.

(** The events come in the order of their instants, none before [t]. *)
Fixpoint inOrder (t : Z) (es : list Event) : Prop :=
  match es with
  | [] => True
  | e :: rest => t <= at_time e /\ inOrder (at_time e) rest
  end.

(** Every failed proxy has a timer pending that is due within ten minutes
    of [now]. *)
Definition covered (now : Z) (h : Health) : Prop :=
  forall p, p ∈ failed h ->
    exists d, In (d, p) (pending h) /\ d <= now + 10 * 60 * 1000.

(** A proxy marked failed twice, four minutes apart. *)
Definition markedTwice : list Event :=
  [Marked 0 "10.0.0.1:8080"; Marked 240000 "10.0.0.1:8080"].

End ProxyRotator.

(** ** The pool scheduler: class CookiePoolManager *)
Module CookiePoolManager.

(** The options reach the constructor and [updateConfig] unchecked from a
    request body: the cap is whatever JSON number was sent, a fraction as
    well as an integer. *)
Record Options := {
  minCookiePool : Z;
  maxCookiePool : Z;
  maxConcurrentBrowsers : Q
}.

(** The defaults of the constructor. *)
Definition defaultOptions : Options :=
  {| minCookiePool := 500; maxCookiePool := 700; maxConcurrentBrowsers := 3 # 1 |}.

(** The part of the manager the scheduling decisions read and write.
    [processVisits] is asynchronous: between its entry (line 532), its
    test of the cap (line 552) and the moment its session id enters the set
    (line 627) it awaits the store, and other callbacks run in between.
    [reading] counts the runs that have passed line 532 and await the
    queries of lines 538-548; [spawning] counts the runs that have passed
    the test of line 552 and await [getRandomEvent] at line 618. *)
Record State := {
  options : Options;
  isRunning : bool;
  activeBrowsers : gset string;
  failedVisits : Z;
  reading : nat;
  spawning : nat
}.

(** [new CookiePoolManager(options)]. *)
Definition create (o : Options) : State :=
  {| options := o; isRunning := false; activeBrowsers := ∅; failedVisits := 0;
     reading := 0; spawning := 0 |}.

(** What a run of [processVisits] obtains from the queries of lines
    538-548: the size of the current pool ([None] when the query throws)
    and the number of cookies expiring soon. *)
Record Queries := {
  currentCookies : option Z;
  expiringCookies : Z
}.

(** What [startNewBrowserSession] obtains: the event drawn ([None] when
    there is none or the query throws) and the session id drawn. *)
Record Draw := {
  randomEvent : option string;
  sessionId : string
}.

(** [a < b] on finite JavaScript numbers. *)
Definition ltNumber (a b : Q) : bool := negb (Qle_bool b a).

(** The decision at lines 553-568. *)
Definition shouldStartBrowser (o : Options) (currentCookies : Z) (needsRefresh : bool) : bool :=
  if currentCookies <? minCookiePool o then true
  else if needsRefresh then true
  else if maxCookiePool o <=? currentCookies then true
  else true.

(** Line 532 and the call at line 538, up to its [await]: a run is
    entered only while the manager is running. *)
Definition processVisits (st : State) : State :=
  if negb (isRunning st) then st
  else {| options := options st; isRunning := isRunning st;
          activeBrowsers := activeBrowsers st; failedVisits := failedVisits st;
          reading := S (reading st); spawning := spawning st |}.

(** Lines 538-581, from the return of the queries to the [await] inside
    [startNewBrowserSession]: one of the runs that wait for the store
    goes on.  [isRunning] is not looked at again. *)
Definition afterQueries (q : Queries) (st : State) : State :=
  match reading st with
  | O => st
  | S waiting =>
      match currentCookies q with
      | None =>
          {| options := options st; isRunning := isRunning st;
             activeBrowsers := activeBrowsers st;
             failedVisits := failedVisits st + 1;
             reading := waiting; spawning := spawning st |}
      | Some n =>
          let needsRefresh := 0 <? expiringCookies q in
          if ltNumber (inject_Z (Z.of_nat (size (activeBrowsers st))))
                      (maxConcurrentBrowsers (options st))
             && shouldStartBrowser (options st) n needsRefresh
          then {| options := options st; isRunning := isRunning st;
                  activeBrowsers := activeBrowsers st;
                  failedVisits := failedVisits st;
                  reading := waiting; spawning := S (spawning st) |}
          else {| options := options st; isRunning := isRunning st;
                  activeBrowsers := activeBrowsers st;
                  failedVisits := failedVisits st;
                  reading := waiting; spawning := spawning st |}
      end
  end.

(** Lines 615-641, from the return of [getRandomEvent] to the detached
    [processSingleEvent]: one of the runs that passed the test goes on and,
    given an event, adds its session id.  The cap is not looked at
    again. *)
Definition startNewBrowserSession (d : Draw) (st : State) : State :=
  match spawning st with
  | O => st
  | S waiting =>
      match randomEvent d with
      | None =>
          {| options := options st; isRunning := isRunning st;
             activeBrowsers := activeBrowsers st; failedVisits := failedVisits st;
             reading := reading st; spawning := waiting |}
      | Some _ =>
          {| options := options st; isRunning := isRunning st;
             activeBrowsers := {[ sessionId d ]} ∪ activeBrowsers st;
             failedVisits := failedVisits st;
             reading := reading st; spawning := waiting |}
      end
  end.

(** The [finally] callback at lines 632-636. *)
Definition sessionCompleted (sessionId : string) (st : State) : State :=
  {| options := options st; isRunning := isRunning st;
     activeBrowsers := activeBrowsers st ∖ {[ sessionId ]};
     failedVisits := failedVisits st;
     reading := reading st; spawning := spawning st |}.

(** [start], lines 417-461: nothing when already running; else the flag is
    set, the visit timer is armed (line 448) and the initial run of
    [processVisits] is entered (line 458). *)
Definition start (st : State) : State :=
  if isRunning st then st
  else processVisits
         {| options := options st; isRunning := true;
            activeBrowsers := activeBrowsers st; failedVisits := failedVisits st;
            reading := reading st; spawning := spawning st |}.

(** [stop], lines 506-526: the flag and the timers; runs that were entered
    before are left to go on. *)
Definition stop (st : State) : State :=
  if negb (isRunning st) then st
  else {| options := options st; isRunning := false;
          activeBrowsers := activeBrowsers st; failedVisits := failedVisits st;
          reading := reading st; spawning := spawning st |}.

(** [updateConfig(newOptions)]: the keys present replace the old values. *)
Record NewOptions := {
  new_minCookiePool : option Z;
  new_maxCookiePool : option Z;
  new_maxConcurrentBrowsers : option Q
}.

Definition updateConfig (newOptions : NewOptions) (st : State) : State :=
  {| options :=
       {| minCookiePool :=
            default (minCookiePool (options st)) (new_minCookiePool newOptions);
          maxCookiePool :=
            default (maxCookiePool (options st)) (new_maxCookiePool newOptions);
          maxConcurrentBrowsers :=
            default (maxConcurrentBrowsers (options st))
                    (new_maxConcurrentBrowsers newOptions) |};
     isRunning := isRunning st;
     activeBrowsers := activeBrowsers st;
     failedVisits := failedVisits st;
     reading := reading st; spawning := spawning st |}.

(** What can happen to a manager, one callback at a time: the control
    endpoints are called, the visit timer calls [processVisits], a run
    that was waiting goes on, a session ends.  The timer is not part of
    the state: its callback may come at any time, which covers every
    schedule of the real one. *)
Inductive Event :=
| Start
| Stop
| TimerFires
| QueriesReturn (q : Queries)
| EventDrawn (d : Draw)
| SessionCompleted (sessionId : string)
| UpdateConfig (newOptions : NewOptions).

Definition step (st : State) (e : Event) : State :=
  match e with
  | Start => start st
  | Stop => stop st
  | TimerFires => processVisits st
  | QueriesReturn q => afterQueries q st
  | EventDrawn d => startNewBrowserSession d st
  | SessionCompleted sessionId => sessionCompleted sessionId st
  | UpdateConfig newOptions => updateConfig newOptions st
  end.

Definition run (o : Options) (es : list Event) : State :=
  fold_left step es (create o).


Definition isStart (e : Event) : bool :=
  match e with Start => true | _ => false end.



(** Sessions held and runs in flight. *)
Definition load (st : State) : nat :=
  (size (activeBrowsers st) + reading st + spawning st)%nat.


(** A run finds the pool empty; it is given an event to visit and draws
    the session id [sid]. *)
Definition poolEmpty : Queries :=
  {| currentCookies := Some 0; expiringCookies := 0 |}.

Definition sampleDraw (sid : string) : Draw :=
  {| randomEvent := Some "E1"%string; sessionId := sid |}.









(** A manager stopped while one run waits for the store and another for
    its event. *)
Definition stoppedInFlight : State :=
  run defaultOptions [Start; QueriesReturn poolEmpty; TimerFires].

(** *** Reading the store for the scheduler and for consumers *)

(** Lines 587-610: the first hundred unexpired active cookies by expiry,
    of which those expiring within the hour. *)
Definition getExpiringCookies (now : Z) (db : CookieService.Collection)
    : list CookieService.Cookie :=
  let oneHourFromNow := now + 60 * 60 * 1000 in
  let expiringCookies :=
    CookieService.getCookies now
      {| CookieService.go_status := Some CookieService.active;
         CookieService.go_isValid := Some true;
         CookieService.go_limit := 100;
         CookieService.go_sortBy := CookieService.byExpiresAt;
         CookieService.go_sortOrder := 1;
         CookieService.go_tags := [];
         CookieService.go_eventId := None;
         CookieService.go_domain := None;
         CookieService.go_minQualityScore := 0 |} db in
  List.filter
    (fun cookie =>
       match CookieService.expiresAt (CookieService.validity cookie) with
       | Some e => e <=? oneHourFromNow
       | None => false
       end) expiringCookies.

(** A key of an object literal: absent, present with the value
    [undefined], or present with a value. *)
Inductive Field (A : Type) :=
| Absent
| Undefined
| Value (a : A).
Arguments Absent {A}.
Arguments Undefined {A}.
Arguments Value {A} a.

(** [{ key: d, ...criteria }] read through a destructuring with default
    [dflt]: the key of [criteria] wins when present, and [undefined] then
    gives the destructuring default. *)
Definition spreadOver {A : Type} (d dflt : A) (f : Field A) : A :=
  match f with
  | Absent => d
  | Undefined => dflt
  | Value a => a
  end.

Record FreshCriteria := {
  fresh_domain : Field (option string);
  fresh_tags : Field (list string);
  fresh_excludeUsedRecently : Field bool;
  fresh_maxUsageCount : Field Z
}.

Definition noCriteria : FreshCriteria :=
  {| fresh_domain := Absent; fresh_tags := Absent;
     fresh_excludeUsedRecently := Absent; fresh_maxUsageCount := Absent |}.

(** Lines 907-926. *)
Definition getFreshCookies (now : Z) (criteria : FreshCriteria)
    (db : CookieService.Collection)
    : option CookieService.Cookie * CookieService.Collection :=
  CookieService.getBestCookies now
    {| CookieService.crit_domain :=
         spreadOver (Some "ticketmaster.com"%string) None (fresh_domain criteria);
       CookieService.crit_tags :=
         spreadOver ["auto-generated"%string] [] (fresh_tags criteria);
       CookieService.excludeUsedRecently :=
         spreadOver true true (fresh_excludeUsedRecently criteria);
       CookieService.maxUsageCount :=
         spreadOver 5 10 (fresh_maxUsageCount criteria) |} db.

End CookiePoolManager.

(** ** One acquisition session: [processSingleEvent] of CookiePoolManager *)
Module PoolSession.

(** [this.stats]. *)
Record Stats := {
  totalVisits : Z;
  successfulVisits : Z;
  failedVisits : Z;
  cookiesGenerated : Z;
  eventsProcessed : Z
}.

(** The event as [getRandomEvent] hands it over. *)
Record PoolEvent := {
  eventId : string;
  url : string;
  tags : list string
}.

(** What one iteration of the loop obtains from its collaborators:
    [result.cookies] of [refreshCookies] ([None] when it throws or returns
    no cookies array), the user agent of the fingerprint, the values drawn
    for the stored document, and whether the calls of [updateEventMetrics]
    for a success and for the final failure go through. *)
Record Attempt := {
  refreshed : option (list CookieService.CookieEntry);
  fingerprintUserAgent : option string;
  cookieUuid : string;
  cookieOid : nat;
  refreshUuid : string;
  now : Z;
  successMetricsOk : bool;
  failureMetricsOk : bool
}.

Inductive Outcome :=
| Succeeded (generated : Z) (cookieRecord : option CookieService.Cookie)
| GaveUp
| Rejected
| NotRun.

Definition storeOptions (event : PoolEvent) (a : Attempt) : CookieService.StoreOptions :=
  {| CookieService.opt_eventId := Some (eventId event);
     CookieService.opt_refreshId := Some (refreshUuid a);
     CookieService.opt_proxy := None;
     CookieService.opt_userAgent :=
       Some (default "Mozilla/5.0 (iPhone; CPU iPhone OS 16_0 like Mac OS X)"%string
                     (CookieService.truthy (fingerprintUserAgent a)));
     CookieService.opt_domain := Some "ticketmaster.com"%string;
     CookieService.opt_tags := tags event ++ ["auto-generated"%string; "pool-managed"%string];
     CookieService.opt_metadata_domain := None |}.

(** The [catch] block, lines 707-734, up to the wait before the retry:
    [inl] when the loop goes on with the new retry count. *)
Definition afterFailure (maxRetries retries : Z) (a : Attempt) (stats : Stats)
    : (Z * Stats) + (Outcome * Stats) :=
  let retries := retries + 1 in
  let stats :=
    {| totalVisits := totalVisits stats + 1;
       successfulVisits := successfulVisits stats;
       failedVisits := failedVisits stats;
       cookiesGenerated := cookiesGenerated stats;
       eventsProcessed := eventsProcessed stats |} in
  if maxRetries <? retries then
    if failureMetricsOk a then
      inr (GaveUp,
           {| totalVisits := totalVisits stats;
              successfulVisits := successfulVisits stats;
              failedVisits := failedVisits stats + 1;
              cookiesGenerated := cookiesGenerated stats;
              eventsProcessed := eventsProcessed stats |})
    else inr (Rejected, stats)
  else inl (retries, stats).

(** Lines 648-736.  [attempts k] is what the iteration entered with [k]
    retries behind it obtains; [fuel] bounds the iterations and is never
    used up when it starts at [maxRetries + 1]. *)
Fixpoint sessionLoop (fuel : nat) (maxRetries retries : Z) (event : PoolEvent)
    (attempts : Z -> Attempt) (stats : Stats) (db : CookieService.Collection)
    : Outcome * Stats * CookieService.Collection :=
  match fuel with
  | O => (NotRun, stats, db)
  | S fuel' =>
      if retries <=? maxRetries then
        let a := attempts retries in
        let failure db' :=
          match afterFailure maxRetries retries a stats with
          | inl (retries', stats') =>
              sessionLoop fuel' maxRetries retries' event attempts stats' db'
          | inr (outcome, stats') => (outcome, stats', db')
          end in
        match refreshed a with
        | None | Some [] => failure db
        | Some cookies =>
            let '(cookieRecord, db') :=
              CookieService.storeCookies (cookieUuid a) (cookieOid a) (now a)
                (CookieService.DataArray cookies) (storeOptions event a) db in
            if successMetricsOk a then
              (Succeeded (Z.of_nat (length cookies)) cookieRecord,
               {| totalVisits := totalVisits stats + 1;
                  successfulVisits := successfulVisits stats + 1;
                  failedVisits := failedVisits stats;
                  cookiesGenerated := cookiesGenerated stats + Z.of_nat (length cookies);
                  eventsProcessed := eventsProcessed stats + 1 |},
               db')
            else failure db'
        end
      else (NotRun, stats, db)
  end.

Definition processSingleEvent (maxRetries : Z) (event : PoolEvent)
    (attempts : Z -> Attempt) (stats : Stats) (db : CookieService.Collection)
    : Outcome * Stats * CookieService.Collection :=
  sessionLoop (Z.to_nat (maxRetries + 1)) maxRetries 0 event attempts stats db.

(** An event, a run of attempts that never yields cookies, and fresh
    statistics. *)
Definition sampleEvent : PoolEvent :=
  {| eventId := "E1"; url := "https://www.ticketmaster.com/event/E1";
     tags := ["ticketmaster"%string] |}.

Definition alwaysEmpty (k : Z) : Attempt :=
  {| refreshed := None; fingerprintUserAgent := None; cookieUuid := "u";
     cookieOid := 0; refreshUuid := "r"; now := 0;
     successMetricsOk := true; failureMetricsOk := true |}.

Definition noStats : Stats :=
  {| totalVisits := 0; successfulVisits := 0; failedVisits := 0;
     cookiesGenerated := 0; eventsProcessed := 0 |}.

(** What a loop entered with [retries] behind it accounts for. *)
Definition accounted (maxRetries retries : Z) (stats stats' : Stats)
    (db db' : CookieService.Collection) (o : Outcome) : Prop :=
  1 <= totalVisits stats' - totalVisits stats <= maxRetries + 1 - retries
  /\ 0 <= Z.of_nat (length db') - Z.of_nat (length db)
       <= totalVisits stats' - totalVisits stats
  /\ match o with
     | Succeeded n _ =>
         0 < n
         /\ successfulVisits stats' = successfulVisits stats + 1
         /\ failedVisits stats' = failedVisits stats
         /\ cookiesGenerated stats' = cookiesGenerated stats + n
         /\ eventsProcessed stats' = eventsProcessed stats + 1
     | GaveUp =>
         totalVisits stats' - totalVisits stats = maxRetries + 1 - retries
         /\ successfulVisits stats' = successfulVisits stats
         /\ failedVisits stats' = failedVisits stats + 1
         /\ cookiesGenerated stats' = cookiesGenerated stats
     | Rejected =>
         totalVisits stats' - totalVisits stats = maxRetries + 1 - retries
         /\ successfulVisits stats' = successfulVisits stats
         /\ failedVisits stats' = failedVisits stats
         /\ cookiesGenerated stats' = cookiesGenerated stats
     | NotRun => False
     end.

End PoolSession.

(** ** Drawing an event: [EventService.getRandomEvent] *)
Module EventService.

(** The fields of an Event document that [getRandomEvent] reads. *)
Record EventDoc := {
  _id : nat;
  Event_ID : string;
  URL : string;
  Event_Name : string;
  Venue : string;
  Event_DateTime : option Z;
  Skip_Scraping : option bool
}.

(** The event in the format the pool manager expects. *)
Record PoolEvent := {
  eventId : string;
  url : string;
  title : string;
  venue : string;
  date : option Z;
  tags : list string;
  doc_id : nat
}.

Inductive Error := EventIsNull.

Definition toScrape (e : EventDoc) : bool :=
  match Skip_Scraping e with
  | Some false => true
  | _ => false
  end.

Definition forPool (event : EventDoc) : PoolEvent :=
  {| eventId := Event_ID event; url := URL event; title := Event_Name event;
     venue := Venue event; date := Event_DateTime event;
     tags := ["ticketmaster"%string; "auto-scraping"%string];
     doc_id := _id event |}.

(** Lines 71-96; [random] is the value drawn by [Math.random]. *)
Definition getRandomEvent (random : Q) (events : list EventDoc)
    : result Error (option PoolEvent) :=
  let matching := List.filter toScrape events in
  let count := length matching in
  if (count =? 0)%nat then Ok None
  else
    let skip := ProxyRotator.randomIndex random count in
    match (if skip <? 0 then None else matching !! Z.to_nat skip) with
    | Some event => Ok (Some (forPool event))
    | None => Throw EventIsNull
    end.

Definition sampleEvents : list EventDoc :=
  [ {| _id := 1; Event_ID := "E1"; URL := "https://www.ticketmaster.com/event/E1";
       Event_Name := "First"; Venue := "Hall"; Event_DateTime := None;
       Skip_Scraping := Some true |};
    {| _id := 2; Event_ID := "E2"; URL := "https://www.ticketmaster.com/event/E2";
       Event_Name := "Second"; Venue := "Arena"; Event_DateTime := None;
       Skip_Scraping := Some false |} ].

End EventService.

(** * Properties *)

(** ** The artifact store *)
Section ArtifactStore.
Import CookieService.

Lemma pickBest_fold (l : list Cookie) (init : option Cookie) (c : Cookie) :
  fold_left pickBest l init = Some c -> init = Some c \/ In c l.
Proof.
  revert init. induction l as [|x l IH]; intros init H; simpl in *.
  - by left.
  - apply IH in H as [H|H]; [|by right; right].
    destruct init as [b|]; simpl in H.
    + destruct (sortsBefore x b); inversion H; subst; [right; by left|by left].
    + inversion H. right. by left.
Qed.

Lemma findOneSorted_Some (q : Cookie -> bool) (db : Collection) (c : Cookie) :
  findOneSorted q db = Some c -> In c db /\ q c = true.
Proof.
  unfold findOneSorted. intros H.
  apply pickBest_fold in H as [H|H]; [discriminate|].
  by apply filter_In in H.
Qed.

Lemma findOneSorted_None (q : Cookie -> bool) (db : Collection) :
  (forall c, In c db -> q c = false) -> findOneSorted q db = None.
Proof.
  intros H. unfold findOneSorted.
  destruct (fold_left pickBest (List.filter q db) None) as [c|] eqn:E; [|done].
  apply pickBest_fold in E as [E|E]; [discriminate|].
  apply filter_In in E as [Hin Hq]. rewrite (H c Hin) in Hq. discriminate.
Qed.

Lemma getBestCookies_Some (now : Z) (cr : Criteria) (db : Collection) (c : Cookie) :
  fst (getBestCookies now cr db) = Some c -> In c db /\ bestQuery now cr c = true.
Proof.
  unfold getBestCookies.
  destruct (findOneSorted (bestQuery now cr) db) as [b|] eqn:E; simpl; [|discriminate].
  intros [= <-]. by apply findOneSorted_Some.
Qed.

Lemma Status_eqb_eq (a b : Status) : Status_eqb a b = true <-> a = b.
Proof. destruct a, b; simpl; split; congruence. Qed.

(** What the query demands of a document, conjunct by conjunct. *)
Lemma bestQuery_true (now : Z) (cr : Criteria) (c : Cookie) :
  bestQuery now cr c = true ->
  status c = active /\ isValid (validity c) = true
  /\ (exists e, expiresAt (validity c) = Some e /\ now < e)
  /\ 50 <= score (quality c)
  /\ (0 < maxUsageCount cr -> usageCount (validity c) < maxUsageCount cr).
Proof.
  unfold bestQuery. rewrite !andb_true_iff.
  intros [[[[[[[Hs Hv] He] Hq] _] _] _] Hu].
  apply Status_eqb_eq in Hs. repeat split; try done.
  - unfold dateGt in He. destruct (expiresAt (validity c)) as [e|]; [|discriminate].
    exists e. split; [done|lia].
  - lia.
  - intros Hpos. destruct (0 <? maxUsageCount cr) eqn:E; lia.
Qed.

Lemma updateById_In (i : nat) (f : Cookie -> Cookie) (db : Collection) (x : Cookie) :
  In x (updateById i f db) -> In x db \/ exists y, In y db /\ _id y = i /\ x = f y.
Proof.
  induction db as [|c db IH]; simpl; [done|].
  destruct (Nat.eqb (_id c) i) eqn:E; simpl.
  - intros [<-|H]; [|by left; right].
    right. exists c. apply Nat.eqb_eq in E. by split; [left|].
  - intros [<-|H]; [by left; left|].
    destruct (IH H) as [H'|(y & Hy & Hi & ->)]; [by left; right|].
    right. exists y. by split; [right|].
Qed.

Lemma updateById_ids (i : nat) (f : Cookie -> Cookie) (db : Collection) :
  (forall c, _id (f c) = _id c) -> map _id (updateById i f db) = map _id db.
Proof.
  intros Hf. induction db as [|c db IH]; simpl; [done|].
  destruct (Nat.eqb (_id c) i); simpl; [by rewrite Hf|by rewrite IH].
Qed.

Lemma updateById_cookieIds (i : nat) (f : Cookie -> Cookie) (db : Collection) :
  (forall c, cookieId (f c) = cookieId c) ->
  map cookieId (updateById i f db) = map cookieId db.
Proof.
  intros Hf. induction db as [|c db IH]; simpl; [done|].
  destruct (Nat.eqb (_id c) i); simpl; [by rewrite Hf|by rewrite IH].
Qed.

Lemma findById_updateById (i : nat) (f : Cookie -> Cookie) (db : Collection) :
  (forall c, _id (f c) = _id c) ->
  findById i (updateById i f db) = f <$> findById i db.
Proof.
  intros Hf. induction db as [|c db IH]; simpl; [done|].
  destruct (Nat.eqb (_id c) i) eqn:E; simpl.
  - by rewrite Hf, E.
  - by rewrite E.
Qed.

Lemma findById_unique (db : Collection) (c : Cookie) :
  NoDup (map _id db) -> In c db -> findById (_id c) db = Some c.
Proof.
  induction db as [|x db IH]; simpl; [done|].
  intros Hnd [->|Hin]; [by rewrite Nat.eqb_refl|].
  apply NoDup_cons in Hnd as [Hx Hnd].
  destruct (Nat.eqb (_id x) (_id c)) eqn:E; [|by apply IH].
  apply Nat.eqb_eq in E. exfalso. apply Hx. rewrite E.
  apply list_elem_of_In. by apply in_map.
Qed.

Lemma findOneByCookieId_Some (cid : string) (db : Collection) (c : Cookie) :
  findOneByCookieId cid db = Some c -> In c db /\ cookieId c = cid.
Proof.
  induction db as [|x db IH]; simpl; [done|].
  destruct (String.eqb (cookieId x) cid) eqn:E.
  - intros [= <-]. apply String.eqb_eq in E. by split; [left|].
  - intros H. destruct (IH H). by split; [right|].
Qed.

Lemma findOneByCookieId_unique (db : Collection) (c : Cookie) :
  NoDup (map cookieId db) -> In c db -> findOneByCookieId (cookieId c) db = Some c.
Proof.
  induction db as [|x db IH]; simpl; [done|].
  intros Hnd [->|Hin]; [by rewrite String.eqb_refl|].
  apply NoDup_cons in Hnd as [Hx Hnd].
  destruct (String.eqb (cookieId x) (cookieId c)) eqn:E; [|by apply IH].
  apply String.eqb_eq in E. exfalso. apply Hx. rewrite E.
  apply list_elem_of_In. by apply in_map.
Qed.

Lemma In_updateById (db : Collection) (c : Cookie) (f : Cookie -> Cookie) :
  NoDup (map _id db) -> In c db -> In (f c) (updateById (_id c) f db).
Proof.
  induction db as [|x db IH]; simpl; [done|].
  intros Hnd [->|Hin]; [rewrite Nat.eqb_refl; by left|].
  apply NoDup_cons in Hnd as [Hx Hnd].
  destruct (Nat.eqb (_id x) (_id c)) eqn:E; [|right; by apply IH].
  apply Nat.eqb_eq in E. exfalso. apply Hx. rewrite E.
  apply list_elem_of_In. by apply in_map.
Qed.

(** *** Selection *)

(** C1. Whatever the store and the filter, an artifact returned by
    [getBestCookies] is a stored document with status [active], valid, and
    with an expiry strictly after the instant of the query; a store holding
    a single artifact whose expiry is not in the future yields nothing and
    is left as it was. *)
Theorem getBestCookies_never_expired :
  (forall (now : Z) (cr : Criteria) (db : Collection) (c : Cookie),
     fst (getBestCookies now cr db) = Some c ->
     In c db /\ status c = active /\ isValid (validity c) = true
     /\ exists e, expiresAt (validity c) = Some e /\ now < e)
  /\ (forall (now : Z) (cr : Criteria) (c : Cookie) (e : Z),
        expiresAt (validity c) = Some e -> e <= now ->
        getBestCookies now cr [c] = (None, [c])).
Proof.
  split.
  - intros now cr db c H. apply getBestCookies_Some in H as [Hin Hq].
    apply bestQuery_true in Hq as (Hs & Hv & He & _). done.
  - intros now cr c e He Hle. unfold getBestCookies.
    rewrite findOneSorted_None; [done|].
    intros x [<-|[]]. unfold bestQuery, dateGt. rewrite He.
    replace (now <? e) with false by lia.
    by rewrite !andb_false_r.
Qed.

(** C9. Beyond the listed filters, the selection also drops every artifact
    scored below 50 and, when [maxUsageCount] is positive (10 by default),
    every artifact used that many times: a lone artifact that is active,
    valid and unexpired is no longer served once its usage count is 10. *)
Theorem getBestCookies_usage_and_score_floor :
  maxUsageCount defaultCriteria = 10
  /\ (forall (now : Z) (cr : Criteria) (db : Collection) (c : Cookie),
        fst (getBestCookies now cr db) = Some c ->
        50 <= score (quality c)
        /\ (0 < maxUsageCount cr -> usageCount (validity c) < maxUsageCount cr))
  /\ (forall (now : Z) (cr : Criteria) (c : Cookie),
        0 < maxUsageCount cr ->
        maxUsageCount cr <= usageCount (validity c) \/ score (quality c) < 50 ->
        getBestCookies now cr [c] = (None, [c])).
Proof.
  split; [done|]. split.
  - intros now cr db c H. apply getBestCookies_Some in H as [_ Hq].
    apply bestQuery_true in Hq as (_ & _ & _ & Hs & Hu). done.
  - intros now cr c Hpos Hc. unfold getBestCookies.
    rewrite findOneSorted_None; [done|].
    intros x [<-|[]].
    destruct (bestQuery now cr c) eqn:E; [|done].
    apply bestQuery_true in E as (_ & _ & _ & Hs & Hu).
    specialize (Hu Hpos). lia.
Qed.

(** A lone artifact, never used and scored 100, asked for eleven times in a
    row: it is handed out ten times, and the eleventh request gets nothing. *)
Lemma lone_artifact_served_ten_times :
  length (fst (serveAll (repeat (Select 1000000 noRest) 11)
                        [sampleCookie 1 "a" 100 (Some 2000000) 0])) = 10%nat
  /\ fst (serveAll (repeat (Select 1000000 noRest) 10)
                   [sampleCookie 1 "a" 100 (Some 2000000) 0])
     <> []
  /\ fst (getBestCookies 1000000 noRest
            (snd (serveAll (repeat (Select 1000000 noRest) 10)
                           [sampleCookie 1 "a" 100 (Some 2000000) 0]))) = None.
Proof. repeat split; vm_compute; (reflexivity || discriminate). Qed.

(** *** Feedback *)

Lemma qualityUpdate_id (now : Z) (success : bool) (cookie c : Cookie) :
  _id (qualityUpdate now success cookie c) = _id c.
Proof. unfold qualityUpdate. by destruct success. Qed.

Lemma qualityUpdate_cookieId (now : Z) (success : bool) (cookie c : Cookie) :
  cookieId (qualityUpdate now success cookie c) = cookieId c.
Proof. unfold qualityUpdate. by destruct success. Qed.

Lemma qualityUpdate_status (now : Z) (success : bool) (cookie c : Cookie) :
  status (qualityUpdate now success cookie c) = failed
  \/ status (qualityUpdate now success cookie c) = status c.
Proof.
  unfold qualityUpdate. destruct success; simpl; [by right|].
  destruct (Z.max 0 (score (quality cookie) - 5) <? 20); [by left|by right].
Qed.

Lemma uniqueKeys_updateById (i : nat) (f : Cookie -> Cookie) (db : Collection) :
  (forall c, _id (f c) = _id c) -> (forall c, cookieId (f c) = cookieId c) ->
  uniqueKeys db -> uniqueKeys (updateById i f db).
Proof.
  intros H1 H2 [Hi Hc]. unfold uniqueKeys.
  by rewrite updateById_ids, updateById_cookieIds.
Qed.

(** One feedback on a stored artifact: the store after it, and the
    document it returns. *)
Lemma updateCookieQuality_found (now : Z) (cid : string) (success : bool)
    (db : Collection) (c : Cookie) :
  uniqueKeys db -> findOneByCookieId cid db = Some c ->
  let c' := qualityUpdate now success c c in
  let db' := updateById (_id c) (qualityUpdate now success c) db in
  updateCookieQuality now cid success db = (Ok (Some c'), db')
  /\ uniqueKeys db' /\ findOneByCookieId cid db' = Some c'.
Proof.
  intros Hu Hf c' db'. pose proof Hu as [Hi Hc].
  apply findOneByCookieId_Some in Hf as Hin. destruct Hin as [Hin Hcid].
  assert (Hu' : uniqueKeys db').
  { apply uniqueKeys_updateById; [..|done]; intros x;
      [apply qualityUpdate_id|apply qualityUpdate_cookieId]. }
  split; [|split; [done|]].
  - unfold updateCookieQuality. rewrite Hf. fold db'. f_equal. f_equal.
    unfold db'. rewrite findById_updateById by (intros; apply qualityUpdate_id).
    by rewrite findById_unique.
  - rewrite <- Hcid, <- (qualityUpdate_cookieId now success c c).
    apply findOneByCookieId_unique; [by destruct Hu'|].
    by apply In_updateById.
Qed.

Lemma failTimes_found (n : nat) (now : Z) (cid : string) (db : Collection) (c : Cookie) :
  uniqueKeys db -> findOneByCookieId cid db = Some c ->
  uniqueKeys (failTimes n now cid db)
  /\ findOneByCookieId cid (failTimes n now cid db)
     = Some (Nat.iter n (fun x => qualityUpdate now false x x) c).
Proof.
  revert db c. induction n as [|n IH]; intros db c Hu Hf; [done|].
  destruct (updateCookieQuality_found now cid false db c Hu Hf) as (E & Hu' & Hf').
  cbn [failTimes]. rewrite E. cbn [snd].
  destruct (IH _ _ Hu' Hf') as [IH1 IH2]. split; [done|].
  rewrite IH2. f_equal.
  apply (Nat.iter_swap n _ (fun x => qualityUpdate now false x x) c).
Qed.

Lemma retired_updateById (cid : string) (i : nat) (f : Cookie -> Cookie) (db : Collection) :
  (forall c, cookieId (f c) = cookieId c) ->
  (forall c, status (f c) = failed \/ status (f c) = status c) ->
  retired cid db -> retired cid (updateById i f db).
Proof.
  intros Hc Hs Hr x Hx Hcid.
  apply updateById_In in Hx as [Hx|(y & Hy & _ & ->)]; [by apply Hr|].
  rewrite Hc in Hcid. destruct (Hs y) as [E|E]; [done|].
  rewrite E. by apply Hr.
Qed.

Lemma retired_serve (cid : string) (r : Request) (db : Collection) :
  retired cid db ->
  retired cid (snd (serve r db))
  /\ forall c, fst (serve r db) = Some c -> cookieId c <> cid.
Proof.
  intros Hr. destruct r as [now cid' success|now cr]; simpl.
  - split; [|done]. unfold updateCookieQuality.
    destruct (findOneByCookieId cid' db) as [c|]; [|done]. simpl.
    apply retired_updateById; [..|done]; intros x;
      [apply qualityUpdate_cookieId|apply qualityUpdate_status].
  - split.
    + unfold getBestCookies.
      destruct (findOneSorted (bestQuery now cr) db) as [c|]; [|done]. simpl.
      apply retired_updateById; [..|done]; intros x; [done|by right].
    + intros c H Hcid. apply getBestCookies_Some in H as [Hin Hq].
      apply bestQuery_true in Hq as (Hs & _).
      rewrite (Hr c Hin Hcid) in Hs. discriminate.
Qed.

Lemma retired_serveAll (cid : string) (rs : list Request) (db : Collection) :
  retired cid db -> Forall (fun x => cookieId x <> cid) (fst (serveAll rs db)).
Proof.
  revert db. induction rs as [|r rs IH]; intros db Hr; simpl; [constructor|].
  destruct (retired_serve cid r db Hr) as [Hr' Hout].
  destruct (serve r db) as [o db1]. simpl in *.
  specialize (IH db1 Hr'). destruct (serveAll rs db1) as [os db2]. simpl in *.
  destruct o as [c|]; [|done]. constructor; [by apply Hout|done].
Qed.

(** C2. A feedback on a stored artifact scored [s] in [0,100]: a success
    sets the score to [min 100 (s+1)] and [lastSuccessful] to the instant of
    the call; a failure sets the score to [max 0 (s-5)] and, when that is
    below 20, the status to [failed] and [isValid] to false.  Seventeen
    failures on an artifact scored 100 leave it at 15 and [failed], and no
    later sequence of feedbacks and selections hands it out again. *)
Theorem updateCookieQuality_feedback :
  (forall (now : Z) (cid : string) (success : bool) (db : Collection) (c : Cookie),
     uniqueKeys db -> findOneByCookieId cid db = Some c ->
     0 <= score (quality c) <= 100 ->
     exists c',
       fst (updateCookieQuality now cid success db) = Ok (Some c')
       /\ findOneByCookieId cid (snd (updateCookieQuality now cid success db)) = Some c'
       /\ 0 <= score (quality c') <= 100
       /\ (success = true ->
           score (quality c') = Z.min 100 (score (quality c) + 1)
           /\ lastSuccessful (quality c') = now
           /\ status c' = status c /\ validity c' = validity c)
       /\ (success = false ->
           score (quality c') = Z.max 0 (score (quality c) - 5)
           /\ lastSuccessful (quality c') = lastSuccessful (quality c)
           /\ (score (quality c') < 20 ->
               status c' = failed /\ isValid (validity c') = false)
           /\ (20 <= score (quality c') ->
               status c' = status c /\ validity c' = validity c)))
  /\ (forall (now : Z) (cid : string) (db : Collection) (c : Cookie),
        uniqueKeys db -> findOneByCookieId cid db = Some c ->
        score (quality c) = 100 ->
        (exists c17,
            findOneByCookieId cid (failTimes 17 now cid db) = Some c17
            /\ score (quality c17) = 15 /\ status c17 = failed
            /\ isValid (validity c17) = false)
        /\ forall rs : list Request,
            Forall (fun x => cookieId x <> cid)
                   (fst (serveAll rs (failTimes 17 now cid db)))).
Proof.
  split.
  - intros now cid success db c Hu Hf Hs.
    destruct (updateCookieQuality_found now cid success db c Hu Hf) as (E & _ & Hf').
    exists (qualityUpdate now success c c). rewrite E. cbn [fst snd].
    split; [done|]. split; [done|].
    unfold qualityUpdate. destruct success; cbn.
    + split; [lia|]. split; [done|]. intros [=].
    + split; [lia|]. split; [intros [=]|]. intros _.
      destruct (Z.max 0 (score (quality c) - 5) <? 20) eqn:E20.
      * repeat split; try done; lia.
      * repeat split; try done; try lia. by destruct (validity c).
  - intros now cid db c Hu Hf Hs.
    destruct (failTimes_found 17 now cid db c Hu Hf) as [Hu17 Hf17].
    remember (Nat.iter 17 (fun x => qualityUpdate now false x x) c) as c17 eqn:E17.
    assert (H17 : score (quality c17) = 15 /\ status c17 = failed
                  /\ isValid (validity c17) = false).
    { subst c17. destruct c as [i ci ck so d tg v [sc sr ls] st]. simpl in Hs. subst sc.
      by vm_compute. }
    clear E17. destruct H17 as (H1 & H2 & H3).
    split; [by exists c17|].
    intros rs. apply retired_serveAll.
    intros x Hx Hcid.
    assert (findOneByCookieId (cookieId x) (failTimes 17 now cid db) = Some x) as Hx'
      by (apply findOneByCookieId_unique; [by destruct Hu17|done]).
    rewrite Hcid, Hf17 in Hx'. injection Hx' as <-. exact H2.
Qed.

(** *** Storing *)

Lemma fold_min_acc (l : list Z) (a x : Z) :
  fold_left Z.min l (Z.min a x) = Z.min a (fold_left Z.min l x).
Proof.
  revert a x. induction l as [|y l IH]; intros a x; simpl; [done|].
  by rewrite <- Z.min_assoc, IH.
Qed.

Lemma fold_expiryStep (now : Z) (l : list CookieEntry) (acc : Z) :
  fold_left (expiryStep now) l acc = fold_left Z.min (futureExpiries now l) acc.
Proof.
  revert acc. induction l as [|c l IH]; intros acc; simpl; [done|].
  rewrite fold_left_app, IH. f_equal.
  unfold expiryStep. destruct (expires c) as [e|]; [|done].
  destruct (0 <? e); [|done]. simpl.
  destruct (now <? e * 1000); simpl; [|by rewrite andb_false_r].
  rewrite andb_true_r. destruct (e * 1000 <? acc) eqn:E; lia.
Qed.

Lemma earliestExpiry_min (now : Z) (l : list CookieEntry) :
  earliestExpiry now (Some l)
  = match minimum (futureExpiries now l) with
    | Some m => Z.min m (now + 24 * 60 * 60 * 1000)
    | None => now + 24 * 60 * 60 * 1000
    end.
Proof.
  unfold earliestExpiry. rewrite fold_expiryStep.
  destruct (futureExpiries now l) as [|x r]; simpl; [done|].
  rewrite fold_min_acc. lia.
Qed.

Lemma minimum_In (l : list Z) (m : Z) : minimum l = Some m -> In m l.
Proof.
  destruct l as [|x r]; simpl; [done|]. intros [= <-].
  revert x. induction r as [|y r IH]; intros x; simpl; [by left|].
  destruct (IH (Z.min x y)) as [H|H]; [|by right; right].
  rewrite <- H. destruct (Z.min_spec x y) as [[_ ->]|[_ ->]]; [by left|by right; left].
Qed.

Lemma futureExpiries_future (now : Z) (l : list CookieEntry) (x : Z) :
  In x (futureExpiries now l) -> now < x.
Proof.
  unfold futureExpiries. rewrite in_flat_map. intros (c & _ & H).
  destruct (expires c) as [e|]; [|done].
  destruct (0 <? e); simpl in H; [|done].
  destruct (now <? e * 1000) eqn:E; simpl in H; [|done].
  destruct H as [<-|[]]. lia.
Qed.

(** C4, as the code has it.  A stored artifact starts with score 100 and
    status [active]; its [expiresAt] is the smaller of now+24h and the
    earliest payload expiry strictly in the future, hence now+24h when no
    entry expires in the future or none does so within 24 hours, and it
    always lies in the interval (now, now+24h]. *)
Theorem storeCookies_expiry (uuid : string) (oid : nat) (now : Z)
    (cookiesData : CookiesData) (options : StoreOptions) (db db' : Collection)
    (cookieRecord : Cookie) :
  storeCookies uuid oid now cookiesData options db = (Some cookieRecord, db') ->
  score (quality cookieRecord) = 100
  /\ status cookieRecord = active
  /\ exists at_ : Z,
       expiresAt (validity cookieRecord) = Some at_
       /\ at_ = match processedCookies cookiesData with
                | Some l => Z.min (specifiedExpiry now l) (now + 24 * 60 * 60 * 1000)
                | None => now + 24 * 60 * 60 * 1000
                end
       /\ now < at_ <= now + 24 * 60 * 60 * 1000.
Proof.
  unfold storeCookies.
  destruct (existsb _ db); [discriminate|]. intros [= <- _].
  split; [done|]. split; [done|].
  exists (earliestExpiry now (processedCookies cookiesData)). split; [done|].
  destruct (processedCookies cookiesData) as [l|].
  - rewrite earliestExpiry_min. unfold specifiedExpiry.
    destruct (minimum (futureExpiries now l)) as [m|] eqn:E; unfold default.
    + split; [done|]. apply minimum_In, futureExpiries_future in E. lia.
    + lia.
  - unfold earliestExpiry. lia.
Qed.

(** A payload whose only entry expires 48 hours ahead: the stored expiry is
    now+24h, not the entry's own. *)
Lemma storeCookies_expiry_beyond_day :
  specifiedExpiry sampleNow payloadTwoDaysAhead = sampleNow + 48 * 60 * 60 * 1000
  /\ exists cookieRecord,
       fst (storeCookies "u1" 1 sampleNow (DataArray payloadTwoDaysAhead) sampleOptions [])
       = Some cookieRecord
       /\ expiresAt (validity cookieRecord) = Some (sampleNow + 24 * 60 * 60 * 1000)
       /\ expiresAt (validity cookieRecord)
          <> Some (specifiedExpiry sampleNow payloadTwoDaysAhead).
Proof.
  split; [reflexivity|]. eexists. split; [reflexivity|]. split; [reflexivity|].
  vm_compute. discriminate.
Qed.

Lemma storeCookies_expiry_witness :
  exists at_ : Z,
    at_ = Z.min (specifiedExpiry sampleNow payloadHourAhead)
                (sampleNow + 24 * 60 * 60 * 1000)
    /\ sampleNow < at_ <= sampleNow + 24 * 60 * 60 * 1000.
Proof.
  destruct (storeCookies_expiry "u1" 1 sampleNow (DataArray payloadHourAhead)
              sampleOptions [] _ _ eq_refl) as (_ & _ & at_ & _ & H1 & H2).
  exists at_. split; [exact H1|exact H2].
Defined.

Lemma getBestCookies_never_expired_witness :
  (In (sampleCookie 3 "c" 100 (Some 3000000) 1) sampleStore
   /\ status (sampleCookie 3 "c" 100 (Some 3000000) 1) = active
   /\ isValid (validity (sampleCookie 3 "c" 100 (Some 3000000) 1)) = true
   /\ exists e,
       expiresAt (validity (sampleCookie 3 "c" 100 (Some 3000000) 1)) = Some e
       /\ 1000000 < e)
  /\ getBestCookies 1000000 defaultCriteria [sampleCookie 1 "a" 100 (Some 500000) 0]
     = (None, [sampleCookie 1 "a" 100 (Some 500000) 0]).
Proof.
  split.
  - apply (proj1 getBestCookies_never_expired 1000000 defaultCriteria sampleStore).
    vm_compute. reflexivity.
  - apply (proj2 getBestCookies_never_expired 1000000 defaultCriteria _ 500000).
    + reflexivity.
    + vm_compute. discriminate.
Defined.

Lemma getBestCookies_usage_and_score_floor_witness :
  (50 <= 100 /\ (0 < 10 -> 1 < 10))
  /\ getBestCookies 1000000 defaultCriteria [sampleCookie 1 "a" 100 (Some 2000000) 10]
     = (None, [sampleCookie 1 "a" 100 (Some 2000000) 10]).
Proof.
  split.
  - apply (proj1 (proj2 getBestCookies_usage_and_score_floor)
             1000000 defaultCriteria sampleStore
             (sampleCookie 3 "c" 100 (Some 3000000) 1)).
    vm_compute. reflexivity.
  - apply (proj2 (proj2 getBestCookies_usage_and_score_floor)).
    + vm_compute. reflexivity.
    + left. vm_compute. discriminate.
Defined.

Lemma updateCookieQuality_feedback_witness :
  (exists c',
      fst (updateCookieQuality 7 "b" false sampleStore) = Ok (Some c')
      /\ score (quality c') = Z.max 0 (90 - 5))
  /\ forall rs : list Request,
      Forall (fun x => cookieId x <> "c"%string)
             (fst (serveAll rs (failTimes 17 0 "c" sampleStore))).
Proof.
  assert (Hu : uniqueKeys sampleStore)
    by (split; apply (bool_decide_unpack _); vm_compute; exact I).
  split.
  - destruct (proj1 updateCookieQuality_feedback 7 "b"%string false sampleStore
                (sampleCookie 2 "b" 90 (Some 2000000) 3) Hu eq_refl)
      as (c' & H1 & _ & _ & _ & H2).
    + vm_compute. split; discriminate.
    + exists c'. split; [exact H1|]. exact (proj1 (H2 eq_refl)).
  - apply (proj2 updateCookieQuality_feedback 0 "c"%string sampleStore
             (sampleCookie 3 "c" 100 (Some 3000000) 1) Hu).
    + vm_compute. reflexivity.
    + vm_compute. reflexivity.
Defined.

End ArtifactStore.

(** ** The refresh trackers *)
Section Trackers.
Import CookieRefreshTracker.
Import CookieRefreshTracker.Enhanced.

(** C5. For a count of at least one the delay is
    [min 1h (5min * 2^(min (n-1) 4))]; it does not decrease with the count,
    never exceeds one hour, is five minutes at 1 and one hour at 5 and 6. *)
Theorem calculateBackoffDelay_clamped :
  (forall n : Z, 1 <= n ->
     calculateBackoffDelay n
     = Z.min (60 * 60 * 1000) (5 * 60 * 1000 * 2 ^ Z.min (n - 1) 4))
  /\ (forall n m : Z, 1 <= n -> n <= m ->
        calculateBackoffDelay n <= calculateBackoffDelay m)
  /\ (forall n : Z, 1 <= n -> calculateBackoffDelay n <= 60 * 60 * 1000)
  /\ calculateBackoffDelay 1 = 5 * 60 * 1000
  /\ calculateBackoffDelay 5 = 60 * 60 * 1000
  /\ calculateBackoffDelay 6 = 60 * 60 * 1000.
Proof.
  assert (Hval : forall n, 1 <= n ->
            (n = 1 /\ calculateBackoffDelay n = 300000)
            \/ (n = 2 /\ calculateBackoffDelay n = 600000)
            \/ (n = 3 /\ calculateBackoffDelay n = 1200000)
            \/ (n = 4 /\ calculateBackoffDelay n = 2400000)
            \/ (5 <= n /\ calculateBackoffDelay n = 3600000)).
  { intros n Hn.
    assert (n = 1 \/ n = 2 \/ n = 3 \/ n = 4 \/ 5 <= n) as [->|[->|[->|[->|H5]]]]
      by lia; auto 6.
    do 4 right. split; [done|]. unfold calculateBackoffDelay.
    by replace (Z.min (n - 1) 4) with 4 by lia. }
  split; [|split; [|split; [|by repeat split]]].
  - intros n Hn. unfold calculateBackoffDelay. apply Z.min_comm.
  - intros n m Hn Hnm.
    destruct (Hval n Hn) as [[? ->]|[[? ->]|[[? ->]|[[? ->]|[? ->]]]]];
      destruct (Hval m ltac:(lia)) as [[? ->]|[[? ->]|[[? ->]|[[? ->]|[? ->]]]]]; lia.
  - intros n Hn.
    destruct (Hval n Hn) as [[? ->]|[[? ->]|[[? ->]|[[? ->]|[? ->]]]]]; lia.
Qed.

Lemma calculateBackoffDelay_clamped_witness :
  calculateBackoffDelay 3 <= calculateBackoffDelay 7.
Proof.
  apply (proj1 (proj2 calculateBackoffDelay_clamped) 3 7); lia.
Defined.

(** *** Completion reports *)

Lemma validateInput_refreshId (id : string) :
  validateInput (JsString id) JsNull JsNull = [].
Proof. unfold validateInput. simpl. by rewrite andb_false_r. Qed.

Lemma findOneAndUpdate_None (q : CookieRefresh -> bool)
    (u : CookieRefresh -> CookieRefresh) (db : Collection) :
  (forall x, In x db -> q x = false) -> findOneAndUpdate q u db = None.
Proof.
  induction db as [|r db IH]; intros H; simpl; [done|].
  rewrite (H r) by (by left). rewrite IH; [done|].
  intros x Hx. apply H. by right.
Qed.

Lemma findOneAndUpdate_Some (q : CookieRefresh -> bool)
    (u : CookieRefresh -> CookieRefresh) (db db' : Collection) (r' : CookieRefresh) :
  findOneAndUpdate q u db = Some (r', db') ->
  exists pre r post,
    db = pre ++ r :: post /\ db' = pre ++ u r :: post /\ r' = u r
    /\ q r = true /\ forall x, In x pre -> q x = false.
Proof.
  revert db' r'. induction db as [|x db IH]; intros db' r'; simpl; [done|].
  destruct (q x) eqn:E.
  - intros [= <- <-]. exists [], x, db. by repeat split.
  - destruct (findOneAndUpdate q u db) as [[r1 rest]|]; [|done].
    intros [= <- <-].
    destruct (IH _ _ eq_refl) as (pre & r & post & -> & -> & -> & Hq & Hpre).
    exists (x :: pre), r, post. repeat split; try done.
    intros y [<-|Hy]; [done|by apply Hpre].
Qed.

Lemma findOne_first (q : CookieRefresh -> bool) (pre post : Collection) (r : CookieRefresh) :
  (forall x, In x pre -> q x = false) -> q r = true ->
  findOne q (pre ++ r :: post) = Some r.
Proof.
  intros Hpre Hq. induction pre as [|x pre IH]; simpl; [by rewrite Hq|].
  rewrite (Hpre x) by (by left). apply IH. intros y Hy. apply Hpre. by right.
Qed.

(** After a conditional update that keeps the id and leaves [in_progress],
    no document with that id is in progress, provided ids are unique. *)
Lemma settled_after_update (id : string) (u : CookieRefresh -> CookieRefresh)
    (db db' : Collection) (r' : CookieRefresh) :
  NoDup (map refreshId db) ->
  (forall r, refreshId (u r) = refreshId r) ->
  (forall r, status (u r) <> in_progress) ->
  findOneAndUpdate (byRefreshIdInProgress id) u db = Some (r', db') ->
  (forall x, In x db' -> byRefreshIdInProgress id x = false)
  /\ findOne (byRefreshId id) db' = Some r'
  /\ (exists r, findOne (byRefreshId id) db = Some r /\ status r = in_progress)
  /\ status r' <> in_progress.
Proof.
  intros Hnd Hid Hst H.
  apply findOneAndUpdate_Some in H as (pre & r & post & -> & -> & -> & Hq & Hpre).
  unfold byRefreshIdInProgress in Hq. apply andb_true_iff in Hq as [Hq1 Hq2].
  apply String.eqb_eq in Hq1.
  rewrite map_app in Hnd. simpl in Hnd.
  apply NoDup_app in Hnd as (Hnd1 & Hnd2 & Hnd3).
  apply NoDup_cons in Hnd3 as [Hr Hpost].
  assert (Hother : forall x, In x pre \/ In x post -> byRefreshId id x = false).
  { intros x Hx. unfold byRefreshId. apply String.eqb_neq. intros E.
    destruct Hx as [Hx|Hx].
    - apply (Hnd2 (refreshId x)); [apply list_elem_of_In; by apply in_map|].
      rewrite E, <- Hq1. by left.
    - apply Hr. rewrite Hq1, <- E. apply list_elem_of_In. by apply in_map. }
  repeat split.
  - intros x Hx. unfold byRefreshIdInProgress.
    apply in_app_or in Hx as [Hx|[<-|Hx]].
    + fold (byRefreshId id x). by rewrite Hother by (by left).
    + destruct (status (u r)) eqn:E; [by destruct (Hst r)|..]; by rewrite andb_false_r.
    + fold (byRefreshId id x). by rewrite Hother by (by right).
  - apply findOne_first; [intros x Hx; apply Hother; by left|].
    unfold byRefreshId. rewrite Hid. by apply String.eqb_eq.
  - exists r. split.
    + apply findOne_first; [intros x Hx; apply Hother; by left|].
      unfold byRefreshId. by apply String.eqb_eq.
    + by destruct (status r).
  - apply Hst.
Qed.

Lemma report_Ok (schema : Schema) (now : Z) (id : string) (r : Report)
    (db db' : Collection) (rec : CookieRefresh) :
  report schema now id r db = (Ok rec, db') ->
  schema = DurationMixed
  /\ exists u, (forall x, refreshId (u x) = refreshId x)
               /\ (forall x, status (u x) <> in_progress)
               /\ findOneAndUpdate (byRefreshIdInProgress id) u db = Some (rec, db').
Proof.
  destruct r as [cc rc md|msg rc md]; simpl.
  - unfold markSuccess. rewrite validateInput_refreshId. simpl.
    destruct schema; [done|].
    match goal with |- context [findOneAndUpdate _ ?f db] => set (u := f) end.
    destruct (findOneAndUpdate (byRefreshIdInProgress id) u db) as [[r1 d1]|] eqn:E; [|done].
    intros [= <- <-]. split; [done|]. exists u. by repeat split.
  - unfold markFailed. rewrite validateInput_refreshId. simpl.
    destruct msg as [| |?|?|[|a m]|?]; try done.
    destruct (findOne (byRefreshId id) db) as [cur|]; [|done].
    destruct schema; [done|].
    match goal with |- context [findOneAndUpdate _ ?f db] => set (u := f) end.
    destruct (findOneAndUpdate (byRefreshIdInProgress id) u db) as [[r1 d1]|] eqn:E; [|done].
    intros [= <- <-]. split; [done|]. exists u. by repeat split.
Qed.

Lemma report_settled (schema : Schema) (now : Z) (id : string) (r : Report)
    (db : Collection) :
  (forall x, In x db -> byRefreshIdInProgress id x = false) ->
  exists e, report schema now id r db = (Throw e, db)
            /\ (wellFormed r ->
                is_Some (findOne (byRefreshId id) db) ->
                e = settledError schema).
Proof.
  intros Hs. destruct r as [cc rc md|msg rc md]; simpl.
  - unfold markSuccess. rewrite validateInput_refreshId. simpl.
    destruct schema; [by eauto|].
    rewrite findOneAndUpdate_None by done. eauto.
  - unfold markFailed. rewrite validateInput_refreshId. simpl.
    destruct msg as [| |?|?|[|a m]|?];
      try (eexists; split; [reflexivity|]; by intros [? ?]).
    destruct (findOne (byRefreshId id) db) as [cur|].
    + destruct schema; [by eauto|].
      rewrite findOneAndUpdate_None by done. eauto.
    + eexists. split; [reflexivity|]. by intros _ [? ?].
Qed.

(** Where the schema types [duration] as a Number no report gets as far
    as its query. *)
Lemma report_cast (now : Z) (id : string) (r : Report) (db : Collection) :
  exists e, report DurationNumber now id r db = (Throw e, db).
Proof.
  destruct r as [cc rc md|msg rc md]; simpl.
  - unfold markSuccess. rewrite validateInput_refreshId. simpl. eauto.
  - unfold markFailed. rewrite validateInput_refreshId. simpl.
    destruct msg as [| |?|?|[|a m]|?]; eauto.
    destruct (findOne (byRefreshId id) db); eauto.
Qed.

Lemma unique_refreshId (db : Collection) (x y : CookieRefresh) :
  NoDup (map refreshId db) -> In x db -> In y db -> refreshId x = refreshId y -> x = y.
Proof.
  induction db as [|z db IH]; [done|].
  simpl. intros Hnd. apply NoDup_cons in Hnd as [Hz Hnd].
  intros [->|Hx] [->|Hy] E; try done.
  - exfalso. apply Hz. rewrite E. apply list_elem_of_In. by apply in_map.
  - exfalso. apply Hz. rewrite <- E. apply list_elem_of_In. by apply in_map.
  - by apply IH.
Qed.

Lemma findOne_is_Some (q : CookieRefresh -> bool) (l : list CookieRefresh)
    (x : CookieRefresh) :
  In x l -> q x = true -> is_Some (findOne q l).
Proof.
  induction l as [|y l IH]; simpl; [done|].
  intros [->|Hx] Hq; [by rewrite Hq|].
  destruct (q y); [done|by apply IH].
Qed.

(** A report on the id of a record that is no longer in progress throws
    and leaves the collection as it was. *)
Lemma report_not_in_progress (schema : Schema) (now : Z) (rep : Report)
    (db : Collection) (cur : CookieRefresh) :
  NoDup (map refreshId db) -> In cur db -> status cur <> in_progress ->
  exists e, report schema now (refreshId cur) rep db = (Throw e, db)
            /\ (wellFormed rep -> e = settledError schema).
Proof.
  intros Hnd Hin Hst.
  destruct (report_settled schema now (refreshId cur) rep db) as (e & He & Hwf).
  - intros x Hx. unfold byRefreshIdInProgress.
    destruct (String.eqb (refreshId x) (refreshId cur)) eqn:E; [|done].
    apply String.eqb_eq in E. rewrite (unique_refreshId db x cur Hnd Hx Hin E).
    simpl. by destruct (status cur).
  - exists e. split; [done|]. intros Hw. apply Hwf; [done|].
    apply (findOne_is_Some _ _ cur); [done|].
    unfold byRefreshId. apply String.eqb_refl.
Qed.

(** C3, for the enhanced tracker, whatever the schema.  Where ids are
    unique, a completion report on the id of a record that has left
    [in_progress] throws and leaves the collection as it was: with "not
    found or already completed" where the schema stores the operator
    documents of the update, with the cast error where it types [duration]
    as a Number, whenever the report's arguments are well formed.  A
    report that succeeds needs a schema that stores the operator
    documents, found its record in progress and leaves it in a terminal
    status, so that every later report on that id throws and changes
    nothing.  Under a Number-typed [duration] no report succeeds or
    writes. *)
Theorem report_at_most_once (schema : Schema) (t : Z) (id : string) (rep : Report)
    (db : Collection) :
  NoDup (map refreshId db) ->
  (forall cur, In cur db -> refreshId cur = id -> status cur <> in_progress ->
     exists e, report schema t id rep db = (Throw e, db)
               /\ (wellFormed rep -> e = settledError schema))
  /\ (forall rec db1, report schema t id rep db = (Ok rec, db1) ->
        schema = DurationMixed
        /\ (exists rec0, findOne (byRefreshId id) db = Some rec0
                         /\ status rec0 = in_progress)
        /\ findOne (byRefreshId id) db1 = Some rec
        /\ status rec <> in_progress
        /\ forall t2 r2, exists e, report schema t2 id r2 db1 = (Throw e, db1)
                                   /\ (wellFormed r2 -> e = NotFoundOrAlreadyCompleted))
  /\ (schema = DurationNumber -> exists e, report schema t id rep db = (Throw e, db)).
Proof.
  intros Hnd. split; [|split].
  - intros cur Hin <- Hst. by apply report_not_in_progress.
  - intros rec db1 H1.
    apply report_Ok in H1 as (-> & u & Hid & Hst & H1).
    destruct (settled_after_update id u db db1 rec Hnd Hid Hst H1) as (Hs & Hf & H0 & Hrec).
    repeat split; try done.
    intros t2 r2.
    destruct (report_settled DurationMixed t2 id r2 db1 Hs) as (e & He & Hwf).
    exists e. split; [done|]. intros Hw. apply Hwf; [done|]. by rewrite Hf.
  - intros ->. apply report_cast.
Qed.

(** The plain tracker: a failure report after a success report on the same
    attempt returns the record and overwrites its status. *)
Lemma plain_report_twice_overwrites :
  (status <$> findOne (byRefreshId "r1") plainSucceeded) = Some success
  /\ (status <$> fst plainThenFailed) = Some failed
  /\ (status <$> findOne (byRefreshId "r1") (snd plainThenFailed)) = Some failed
  /\ snd plainThenFailed <> plainSucceeded.
Proof.
  repeat split; try (vm_compute; reflexivity).
  vm_compute. discriminate.
Qed.

Lemma report_at_most_once_witness :
  exists e,
    report DurationMixed 3000 "r1" (ReportFailed (JsString "late") 0 ∅) enhancedSucceeded
    = (Throw e, enhancedSucceeded)
    /\ (wellFormed (ReportFailed (JsString "late") 0 ∅) ->
        e = NotFoundOrAlreadyCompleted).
Proof.
  destruct (report_at_most_once DurationMixed 3000 "r1"
              (ReportFailed (JsString "late") 0 ∅) enhancedSucceeded) as (H & _).
  - apply (bool_decide_unpack _). vm_compute. exact I.
  - destruct enhancedSucceeded as [|cur rest] eqn:E; [vm_compute in E; discriminate E|].
    apply (H cur).
    + by left.
    + assert (E' : refreshId <$> head enhancedSucceeded = Some "r1"%string)
        by (vm_compute; reflexivity).
      rewrite E in E'. simpl in E'. by injection E'.
    + assert (E' : status <$> head enhancedSucceeded = Some success)
        by (vm_compute; reflexivity).
      rewrite E in E'. simpl in E'. injection E' as ->. discriminate.
Defined.

(** *** Consecutive failures *)

(** The count [markFailed] records is one more than the count stored on
    the record it completes, whatever other records the collection holds. *)
Lemma markFailed_reads_own_record (schema : Schema) (now : Z) (id : string)
    (msg : JsValue) (rc : Z) (md : gmap string string) (db db' : Collection)
    (rec : CookieRefresh) :
  markFailed schema now id msg rc md db = (Ok rec, db') ->
  exists cur,
    findOne (byRefreshId id) db = Some cur
    /\ consecutiveFailures rec = Some (default 0 (consecutiveFailures cur) + 1)
    /\ nextScheduledRefresh rec
       = Some (now + calculateBackoffDelay (default 0 (consecutiveFailures cur) + 1)).
Proof.
  unfold markFailed. rewrite validateInput_refreshId. simpl.
  destruct msg as [| |?|?|[|a m]|?]; try done.
  destruct (findOne (byRefreshId id) db) as [cur|]; [|done].
  destruct schema; [done|].
  match goal with |- context [findOneAndUpdate _ ?f db] => set (u := f) end.
  destruct (findOneAndUpdate (byRefreshIdInProgress id) u db) as [[r1 d1]|] eqn:E; [|done].
  intros [= <- <-]. exists cur. split; [done|].
  apply findOneAndUpdate_Some in E as (pre & r & post & _ & _ & -> & _).
  by subst u.
Qed.

(** C6, on the code.  Two attempts on the same event, both reported
    failed.  Under a schema that stores the operator documents of the
    update, whatever default it gives the count, the second failure
    records the same count as the first and the same delay, not one more.
    Under a schema that types [duration] as a Number both reports throw
    the cast error before anything is written: the two records stay in
    progress, with no count beyond the default and no next attempt
    scheduled. *)
Theorem markFailed_count_not_carried (schema : Schema) (d : option Z) :
  let db := twoFailedAttempts schema d in
  let first := findOne (byRefreshId "r1") db in
  let second := findOne (byRefreshId "r2") db in
  (eventId <$> first) = (eventId <$> second)
  /\ match schema with
     | DurationMixed =>
         (status <$> first) = Some failed
         /\ (status <$> second) = Some failed
         /\ (consecutiveFailures <$> first) = Some (Some (default 0 d + 1))
         /\ (consecutiveFailures <$> second) = Some (Some (default 0 d + 1))
         /\ (nextScheduledRefresh <$> second)
            = Some (Some (4000 + calculateBackoffDelay (default 0 d + 1)))
     | DurationNumber =>
         (status <$> first) = Some in_progress
         /\ (status <$> second) = Some in_progress
         /\ (consecutiveFailures <$> first) = Some d
         /\ (consecutiveFailures <$> second) = Some d
         /\ (nextScheduledRefresh <$> second) = Some None
         /\ fst (markFailed schema 4000 "r2" (JsString "timeout") 0 ∅ db)
            = Throw CastError
     end.
Proof. destruct schema; by repeat split. Qed.

(** With no default in the schema the second failure, where it is
    recorded at all, records 1 and waits five minutes. *)
Lemma markFailed_second_failure_five_minutes :
  (consecutiveFailures <$> findOne (byRefreshId "r2") (twoFailedAttempts DurationMixed None))
  = Some (Some 1)
  /\ (nextScheduledRefresh <$> findOne (byRefreshId "r2")
                                 (twoFailedAttempts DurationMixed None))
     = Some (Some (4000 + 5 * 60 * 1000)).
Proof. by split. Qed.

(** *** Starting a refresh with proxies disabled *)

(** C10, as the code has it.  With [DISABLE_PROXIES] set to ["true"] every
    call of the enhanced [startRefresh] throws and creates no record: the
    validation error when the arguments fail [validateInput], the error of
    the assignment to the constant [proxyString] otherwise. *)
Theorem startRefresh_proxies_disabled (d : option Z) (uuid : string) (now : Z)
    (eventId proxy : JsValue) (metadata : gmap string string) (db : Collection) :
  startRefresh (Some "true"%string) d uuid now eventId proxy metadata db
  = (Throw (match validateInput JsNull (orNull eventId) (orNull proxy) with
            | [] => AssignmentToConstant
            | errors => ValidationFailed errors
            end), db).
Proof.
  unfold startRefresh.
  destruct (validateInput JsNull (orNull eventId) (orNull proxy)) as [|e es]; [|done].
  reflexivity.
Qed.

(** A call whose [eventId] is a number: the error thrown is the validation
    error, not the one of the assignment. *)
Lemma startRefresh_proxies_disabled_validation_first :
  startRefresh (Some "true"%string) None "r1" 1000 (JsNumber 5) JsNull ∅ []
  = (Throw (ValidationFailed ["eventId must be a string"%string]), [])
  /\ fst (startRefresh (Some "true"%string) None "r1" 1000 (JsNumber 5) JsNull ∅ [])
     <> Throw AssignmentToConstant.
Proof. split; [reflexivity|]. vm_compute. discriminate. Qed.

(** Elsewhere the operation does create its record. *)
Lemma startRefresh_proxies_enabled :
  exists rec,
    startRefresh None None "r1" 1000 (JsString "E1") JsNull ∅ [] = (Ok rec, [rec])
    /\ status rec = in_progress /\ proxy rec = JsString "no_proxy".
Proof. eexists. by repeat split. Qed.

End Trackers.

(** ** The proxy rotator *)
Section Rotator.
Import ProxyRotator.

Lemma randomIndex_range (random : Q) (n : nat) :
  (0 <= random)%Q -> (random < 1)%Q -> (0 < n)%nat ->
  0 <= randomIndex random n < Z.of_nat n.
Proof.
  intros H0 H1 Hn. unfold randomIndex.
  assert (Hpos : (0 < inject_Z (Z.of_nat n))%Q).
  { change 0%Q with (inject_Z 0). rewrite <- Zlt_Qlt. lia. }
  split.
  - change 0 with (Qfloor 0). apply Qfloor_resp_le.
    apply Qmult_le_0_compat; [done|]. by apply Qlt_le_weak.
  - rewrite Zlt_Qlt.
    apply Qle_lt_trans with (random * inject_Z (Z.of_nat n))%Q; [apply Qfloor_le|].
    apply Qlt_le_trans with (1 * inject_Z (Z.of_nat n))%Q;
      [by apply Qmult_lt_compat_r|].
    rewrite Qmult_1_l. apply Qle_refl.
Qed.

Lemma at_index_range (l : list Proxy) (i : Z) :
  0 <= i < Z.of_nat (length l) -> exists p, at_index l i = Some p /\ In p l.
Proof.
  intros Hi. unfold at_index. replace (i <? 0) with false by lia.
  destruct (lookup_lt_is_Some_2 l (Z.to_nat i)) as [p Hp]; [lia|].
  exists p. split; [done|]. apply list_elem_of_In. by eapply list_elem_of_lookup_2.
Qed.

(** C7. On a non-empty proxy list, and for any draw in [0,1), the call
    with [avoidFailedProxies] returns a proxy of the list.  When every
    proxy is in the failed set the set is empty afterwards; when some is
    not, the set is unchanged and the proxy returned is not in it.  The
    call returns nothing exactly when the list is empty. *)
Theorem getRandomProxy_picks (random : Q) (proxies : list Proxy)
    (failedProxies : gset string) :
  (0 <= random)%Q -> (random < 1)%Q ->
  (proxies <> [] ->
   exists p,
     fst (getRandomProxy random true proxies failedProxies) = Ok (Some p)
     /\ In p proxies
     /\ ((forall q, In q proxies -> proxy q ∈ failedProxies) ->
         snd (getRandomProxy random true proxies failedProxies) = ∅)
     /\ ((exists q, In q proxies /\ proxy q ∉ failedProxies) ->
         snd (getRandomProxy random true proxies failedProxies) = failedProxies
         /\ proxy p ∉ failedProxies))
  /\ (fst (getRandomProxy random true proxies failedProxies) = Ok None
      <-> proxies = []).
Proof.
  intros H0 H1.
  assert (Hmain : proxies <> [] ->
   exists p,
     fst (getRandomProxy random true proxies failedProxies) = Ok (Some p)
     /\ In p proxies
     /\ ((forall q, In q proxies -> proxy q ∈ failedProxies) ->
         snd (getRandomProxy random true proxies failedProxies) = ∅)
     /\ ((exists q, In q proxies /\ proxy q ∉ failedProxies) ->
         snd (getRandomProxy random true proxies failedProxies) = failedProxies
         /\ proxy p ∉ failedProxies)).
  { intros Hne. unfold getRandomProxy.
    destruct proxies as [|p0 ps]; [done|]. set (proxies := p0 :: ps) in *.
    assert (Hlen : (0 < length proxies)%nat) by (simpl; lia).
    replace (length proxies =? 0)%nat with false
      by (symmetry; apply Nat.eqb_neq; lia).
    set (avail := List.filter (fun p => bool_decide (proxy p ∉ failedProxies)) proxies).
    simpl andb.
    destruct (0 <? size failedProxies)%nat eqn:Esz.
    - destruct (length avail =? 0)%nat eqn:Eav.
      + (* every proxy has failed: the set is cleared *)
        apply Nat.eqb_eq in Eav. apply length_zero_iff_nil in Eav.
        destruct (at_index_range proxies (randomIndex random (length proxies)))
          as (p & Hp & Hin); [by apply randomIndex_range|].
        rewrite Hp. exists p. cbn [fst snd].
        split; [done|]. split; [done|]. split; [done|].
        intros (q & Hq & Hnf). exfalso.
        assert (In q avail) as Hq'
          by (apply filter_In; split; [done|by apply bool_decide_eq_true_2]).
        by rewrite Eav in Hq'.
      + apply Nat.eqb_neq in Eav.
        destruct (at_index_range avail (randomIndex random (length avail)))
          as (p & Hp & Hin); [apply randomIndex_range; [done..|lia]|].
        rewrite Hp. exists p. cbn [fst snd].
        apply filter_In in Hin as [Hin Hnf]. apply bool_decide_eq_true_1 in Hnf.
        split; [done|]. split; [done|]. split; [|done].
        intros Hall. exfalso. apply Hnf. by apply Hall.
    - (* the failed set is empty *)
      apply Nat.ltb_ge in Esz.
      assert (failedProxies = ∅) as -> by (apply leibniz_equiv, size_empty_iff; lia).
      destruct (at_index_range proxies (randomIndex random (length proxies)))
        as (p & Hp & Hin); [by apply randomIndex_range|].
      rewrite Hp. exists p. cbn [fst snd].
      split; [done|]. split; [done|]. split; [done|].
      intros _. split; [done|]. set_solver. }
  split; [done|]. split.
  - intros Hnone. destruct proxies as [|p0 ps]; [done|].
    destruct Hmain as (p & Hp & _); [done|]. rewrite Hp in Hnone. discriminate.
  - by intros ->.
Qed.

Lemma getRandomProxy_picks_witness :
  exists p,
    fst (getRandomProxy (3 # 4) true sampleProxies allFailed) = Ok (Some p)
    /\ In p sampleProxies
    /\ snd (getRandomProxy (3 # 4) true sampleProxies allFailed) = ∅.
Proof.
  destruct (getRandomProxy_picks (3 # 4) sampleProxies allFailed) as [H _].
  - vm_compute. discriminate.
  - vm_compute. reflexivity.
  - destruct H as (p & Hp & Hin & Hclear & _); [discriminate|].
    exists p. split; [exact Hp|]. split; [exact Hin|].
    apply Hclear. intros q [<-|[<-|[]]]; apply (bool_decide_unpack _); vm_compute; exact I.
Defined.

End Rotator.

(** ** The pool scheduler *)
Section Scheduler.
Import CookiePoolManager.

Lemma size_add_le (x : string) (s : gset string) : (size ({[x]} ∪ s) <= S (size s))%nat.
Proof.
  rewrite size_union_alt, size_singleton.
  assert (size (s ∖ {[x]}) <= size s)%nat
    by (apply subseteq_size, subseteq_difference_l; reflexivity).
  lia.
Qed.

Lemma ltNumber_spec (a b : Q) : ltNumber a b = true <-> (a < b)%Q.
Proof.
  unfold ltNumber. rewrite negb_true_iff. split.
  - intros H. apply Qnot_le_lt. intros Hle. apply Qle_bool_iff in Hle. congruence.
  - intros H. destruct (Qle_bool b a) eqn:E; [|done].
    apply Qle_bool_iff in E. exfalso. by apply (Qlt_not_le a b).
Qed.


(** What a run that resumes after its queries does: it leaves the set and
    the options alone, and goes on to spawn only when it finds the set
    below the cap. *)
Lemma afterQueries_cases (q : Queries) (st : State) :
  options (afterQueries q st) = options st
  /\ isRunning (afterQueries q st) = isRunning st
  /\ activeBrowsers (afterQueries q st) = activeBrowsers st
  /\ (reading (afterQueries q st) <= reading st)%nat
  /\ (spawning (afterQueries q st) = spawning st
      /\ (reading st = 0%nat -> reading (afterQueries q st) = 0%nat)
      \/ spawning (afterQueries q st) = S (spawning st)
         /\ S (reading (afterQueries q st)) = reading st
         /\ (inject_Z (Z.of_nat (size (activeBrowsers st)))
             < maxConcurrentBrowsers (options st))%Q).
Proof.
  unfold afterQueries. destruct (reading st) as [|waiting] eqn:Er.
  - rewrite Er. by auto 10.
  - destruct (currentCookies q) as [n|]; simpl.
    + destruct (ltNumber _ _) eqn:E; simpl.
      * assert (shouldStartBrowser (options st) n (0 <? expiringCookies q) = true) as ->.
        { unfold shouldStartBrowser. by repeat case_match. }
        simpl. repeat split; try done; [lia|]. right.
        repeat split; try done. by apply ltNumber_spec.
      * repeat split; try done; [lia|]. left. split; [done|]. by intros.
    + repeat split; try done; [lia|]. left. split; [done|]. by intros.
Qed.

(** What a run that resumes in [startNewBrowserSession] does. *)
Lemma startNewBrowserSession_cases (d : Draw) (st : State) :
  options (startNewBrowserSession d st) = options st
  /\ isRunning (startNewBrowserSession d st) = isRunning st
  /\ reading (startNewBrowserSession d st) = reading st
  /\ (startNewBrowserSession d st = st
      \/ S (spawning (startNewBrowserSession d st)) = spawning st
         /\ (activeBrowsers (startNewBrowserSession d st) = activeBrowsers st
             \/ activeBrowsers (startNewBrowserSession d st)
                = {[sessionId d]} ∪ activeBrowsers st)).
Proof.
  unfold startNewBrowserSession. destruct (spawning st) as [|waiting] eqn:Es.
  - by auto.
  - destruct (randomEvent d); simpl; repeat split; try done; right; auto.
Qed.

Lemma processVisits_cases (st : State) :
  options (processVisits st) = options st
  /\ isRunning (processVisits st) = isRunning st
  /\ activeBrowsers (processVisits st) = activeBrowsers st
  /\ spawning (processVisits st) = spawning st
  /\ (isRunning st = false -> processVisits st = st).
Proof.
  unfold processVisits. destruct (isRunning st) eqn:E; simpl.
  - by repeat split.
  - by repeat split.
Qed.






End Scheduler.

(** ** Cursor operations *)
Section Cursors.
Context {A : Type}.
Implicit Types (leb : A -> A -> bool) (l : list A).

Lemma insertBy_In leb (x y : A) l : In y (insertBy leb x l) <-> y = x \/ In y l.
Proof.
  induction l as [|z l IH]; simpl; [intuition|].
  destruct (leb x z); simpl; [intuition|]. rewrite IH. intuition.
Qed.

Lemma sortDocs_In leb (y : A) l : In y (sortDocs leb l) <-> In y l.
Proof.
  induction l as [|x l IH]; simpl; [done|].
  rewrite insertBy_In, IH. intuition.
Qed.

Lemma insertBy_length leb (x : A) l : length (insertBy leb x l) = S (length l).
Proof.
  induction l as [|z l IH]; simpl; [done|].
  destruct (leb x z); simpl; [done|]. by rewrite IH.
Qed.

Lemma sortDocs_length leb l : length (sortDocs leb l) = length l.
Proof.
  induction l as [|x l IH]; simpl; [done|]. by rewrite insertBy_length, IH.
Qed.

Lemma insertBy_sorted leb (x : A) l :
  (forall a b, leb a b = true \/ leb b a = true) ->
  (forall a b c, leb a b = true -> leb b c = true -> leb a c = true) ->
  StronglySorted (fun a b => leb a b = true) l ->
  StronglySorted (fun a b => leb a b = true) (insertBy leb x l).
Proof.
  intros Htot Htr. induction 1 as [|z l Hs IH Hz]; simpl.
  - repeat constructor.
  - destruct (leb x z) eqn:E.
    + constructor; [by constructor|]. constructor; [done|].
      eapply Forall_impl; [exact Hz|]. intros b Hb. by eapply Htr.
    + constructor; [done|]. apply Forall_forall. intros b Hb.
      apply list_elem_of_In, insertBy_In in Hb as [->|Hb].
      * destruct (Htot x z); congruence.
      * rewrite Forall_forall in Hz. apply Hz. by apply list_elem_of_In.
Qed.

Lemma sortDocs_sorted leb l :
  (forall a b, leb a b = true \/ leb b a = true) ->
  (forall a b c, leb a b = true -> leb b c = true -> leb a c = true) ->
  StronglySorted (fun a b => leb a b = true) (sortDocs leb l).
Proof.
  intros Htot Htr. induction l as [|x l IH]; simpl; [constructor|].
  by apply insertBy_sorted.
Qed.

Lemma limitDocs_In (n : Z) (y : A) l : In y (limitDocs n l) -> In y l.
Proof.
  unfold limitDocs. destruct (n =? 0); [done|].
  rewrite <- !list_elem_of_In. apply subseteq_take.
Qed.

Lemma limitDocs_length (n : Z) l :
  n <> 0 -> Z.of_nat (length (limitDocs n l)) <= Z.abs n.
Proof.
  intros Hn. unfold limitDocs. replace (n =? 0) with false by lia.
  rewrite length_take. lia.
Qed.

Lemma limitDocs_sorted (R : A -> A -> Prop) (n : Z) l :
  StronglySorted R l -> StronglySorted R (limitDocs n l).
Proof.
  unfold limitDocs. destruct (n =? 0); [done|]. intros H.
  rewrite <- (take_drop (Z.to_nat (Z.abs n)) l) in H.
  by apply StronglySorted_app_1_l in H.
Qed.

Lemma keyLeb_total (key : A -> option Z) (sortOrder : Z) (a b : A) :
  keyLeb key sortOrder a b = true \/ keyLeb key sortOrder b a = true.
Proof.
  unfold keyLeb, optLeb. destruct (sortOrder <? 0), (key a), (key b); auto; lia.
Qed.

Lemma keyLeb_trans (key : A -> option Z) (sortOrder : Z) (a b c : A) :
  keyLeb key sortOrder a b = true -> keyLeb key sortOrder b c = true ->
  keyLeb key sortOrder a c = true.
Proof.
  unfold keyLeb, optLeb.
  destruct (sortOrder <? 0), (key a), (key b), (key c); try done; lia.
Qed.

Lemma StronglySorted_weaken (R R' : A -> A -> Prop) l :
  (forall a b, R a b -> R' a b) -> StronglySorted R l -> StronglySorted R' l.
Proof.
  intros HR. induction 1 as [|x l Hs IH Hx]; constructor; [done|].
  eapply Forall_impl; [exact Hx|]. auto.
Qed.

End Cursors.

(** ** The artifact store: queries, eviction and composition *)
Section StoreQueries.
Import CookieService.

Lemma cookiesQuery_true (now : Z) (o : GetOptions) (c : Cookie) :
  cookiesQuery now o c = true ->
  (forall s, go_status o = Some s -> status c = s)
  /\ (forall b, go_isValid o = Some b -> isValid (validity c) = b)
  /\ (0 < go_minQualityScore o -> go_minQualityScore o <= score (quality c))
  /\ exists e, expiresAt (validity c) = Some e /\ now < e.
Proof.
  unfold cookiesQuery. rewrite !andb_true_iff.
  intros [[[[[[Hs Hv] _] _] _] Hq] He]. repeat split.
  - intros s Es. rewrite Es in Hs. by apply Status_eqb_eq.
  - intros b Eb. rewrite Eb in Hv. by apply Bool.eqb_prop.
  - intros Hpos. destruct (0 <? go_minQualityScore o) eqn:E; lia.
  - unfold dateGt in He. destruct (expiresAt (validity c)) as [e|]; [|done].
    exists e. split; [done|lia].
Qed.

(** The listing query, under a sort order mongoose accepts (1 or -1).
    Every document [getCookies] returns is stored, passes the requested
    status, validity and quality filters and expires strictly after the
    instant of the query; a non-zero limit bounds the number returned by
    its absolute value, a zero limit returns every match; the result is
    ordered by the sort key, and under the default sort its scores never
    increase along the list. *)
Theorem getCookies_sound (now : Z) (o : GetOptions) (db : Collection) :
  go_sortOrder o = 1 \/ go_sortOrder o = -1 ->
  (forall c, In c (getCookies now o db) ->
     In c db
     /\ (forall s, go_status o = Some s -> status c = s)
     /\ (forall b, go_isValid o = Some b -> isValid (validity c) = b)
     /\ (0 < go_minQualityScore o -> go_minQualityScore o <= score (quality c))
     /\ exists e, expiresAt (validity c) = Some e /\ now < e)
  /\ (go_limit o <> 0 ->
      Z.of_nat (length (getCookies now o db)) <= Z.abs (go_limit o))
  /\ (go_limit o = 0 ->
      forall c, In c db -> cookiesQuery now o c = true -> In c (getCookies now o db))
  /\ StronglySorted
       (fun a b => keyLeb (sortValue (go_sortBy o)) (go_sortOrder o) a b = true)
       (getCookies now o db)
  /\ (go_sortBy o = byScore -> go_sortOrder o = -1 ->
      StronglySorted (fun a b => score (quality b) <= score (quality a))
                     (getCookies now o db)).
Proof.
  intros _.
  assert (Hsorted : StronglySorted
       (fun a b => keyLeb (sortValue (go_sortBy o)) (go_sortOrder o) a b = true)
       (getCookies now o db)).
  { apply limitDocs_sorted, sortDocs_sorted;
      [apply keyLeb_total|apply keyLeb_trans]. }
  split; [|split; [|split; [|split]]].
  - intros c Hc. unfold getCookies in Hc.
    apply limitDocs_In, sortDocs_In, filter_In in Hc as [Hin Hq].
    split; [done|]. by apply cookiesQuery_true.
  - intros Hl. by apply limitDocs_length.
  - intros Hl c Hin Hq. unfold getCookies, limitDocs. rewrite Hl. simpl.
    apply sortDocs_In, filter_In. done.
  - done.
  - intros Hk Ho. eapply StronglySorted_weaken; [|exact Hsorted].
    intros a b. rewrite Hk, Ho. unfold keyLeb, optLeb. simpl. lia.
Qed.

Lemma getCookies_sound_witness :
  Z.of_nat (length (getCookies 1000000 defaultGetOptions sampleStore)) <= Z.abs 10
  /\ StronglySorted (fun a b => score (quality b) <= score (quality a))
                    (getCookies 1000000 defaultGetOptions sampleStore).
Proof.
  destruct (getCookies_sound 1000000 defaultGetOptions sampleStore)
    as (_ & Hlen & _ & _ & Hs); [by right|].
  split.
  - apply Hlen. vm_compute. discriminate.
  - apply Hs; reflexivity.
Defined.

(** *** The artifact selected is the best match *)





(** *** What a selection does to the store *)

Lemma findById_updateById_ne (i j : nat) (f : Cookie -> Cookie) (db : Collection) :
  (forall c, _id (f c) = _id c) -> i <> j ->
  findById i (updateById j f db) = findById i db.
Proof.
  intros Hf Hne. induction db as [|c db IH]; simpl; [done|].
  destruct (Nat.eqb (_id c) j) eqn:Ej; simpl.
  - apply Nat.eqb_eq in Ej. rewrite Hf.
    by replace (Nat.eqb (_id c) i) with false by (symmetry; apply Nat.eqb_neq; lia).
  - destruct (Nat.eqb (_id c) i); [done|apply IH].
Qed.

Lemma findById_In (i : nat) (db : Collection) (c : Cookie) :
  findById i db = Some c -> In c db /\ _id c = i.
Proof.
  induction db as [|x db IH]; simpl; [done|].
  destruct (Nat.eqb (_id x) i) eqn:E.
  - intros [= <-]. apply Nat.eqb_eq in E. by split; [left|].
  - intros H. destruct (IH H). by split; [right|].
Qed.

(** Where [_id]s are unique, serving an artifact raises its stored usage
    count by one and stamps it as used at the instant of the query; every
    other document, and the order of the collection, stay as they were. *)
Theorem getBestCookies_marks_used (now : Z) (cr : Criteria) (db db' : Collection)
    (c : Cookie) :
  NoDup (map _id db) ->
  getBestCookies now cr db = (Some c, db') ->
  (exists c', findById (_id c) db' = Some c'
              /\ usageCount (validity c') = usageCount (validity c) + 1
              /\ lastUsed (validity c') = now
              /\ score (quality c') = score (quality c) /\ status c' = status c)
  /\ (forall i, i <> _id c -> findById i db' = findById i db)
  /\ map _id db' = map _id db /\ map cookieId db' = map cookieId db.
Proof.
  intros Hnd H. unfold getBestCookies in H.
  destruct (findOneSorted (bestQuery now cr) db) as [b|] eqn:E; [|done].
  injection H as <- <-. apply findOneSorted_Some in E as [Hin _].
  split; [|split; [|split]].
  - exists (markUsed now b). split; [|done].
    rewrite findById_updateById by done. by rewrite findById_unique.
  - intros i Hi. by apply findById_updateById_ne.
  - by apply updateById_ids.
  - by apply updateById_cookieIds.
Qed.

Lemma getBestCookies_marks_used_witness :
  exists c', findById 3 (snd (getBestCookies 1000000 defaultCriteria sampleStore))
             = Some c'
             /\ usageCount (validity c') = 1 + 1
             /\ lastUsed (validity c') = 1000000.
Proof.
  destruct (getBestCookies_marks_used 1000000 defaultCriteria sampleStore
              (snd (getBestCookies 1000000 defaultCriteria sampleStore))
              (sampleCookie 3 "c" 100 (Some 3000000) 1))
    as ((c' & H1 & H2 & H3 & _) & _).
  - apply (bool_decide_unpack _). vm_compute. exact I.
  - vm_compute. reflexivity.
  - exists c'. split; [exact H1|]. split; [exact H2|exact H3].
Defined.



(** *** Storing and finding again *)





(** Round trip on an empty store: an artifact stored from an array payload
    is the one returned to a request without domain, tag or rest filter made
    before its expiry, and the store then holds it with one use. *)
Theorem storeCookies_then_getBestCookies (uuid : string) (oid : nat) (now now' : Z)
    (payload : list CookieEntry) (options : StoreOptions) (cr : Criteria) :
  truthy (crit_domain cr) = None -> crit_tags cr = [] ->
  excludeUsedRecently cr = false ->
  now' < earliestExpiry now (Some payload) ->
  exists cookieRecord,
    fst (storeCookies uuid oid now (DataArray payload) options []) = Some cookieRecord
    /\ cookies cookieRecord = Some payload
    /\ getBestCookies now' cr (snd (storeCookies uuid oid now (DataArray payload) options []))
       = (Some cookieRecord, [markUsed now' cookieRecord]).
Proof.
  intros Hd Ht Hx He. eexists. split; [reflexivity|]. split; [reflexivity|].
  cbn [storeCookies existsb snd app processedCookies].
  unfold getBestCookies, findOneSorted. cbn [List.filter].
  match goal with |- context [bestQuery now' cr ?r] =>
    assert (bestQuery now' cr r = true) as ->
  end.
  { unfold bestQuery. rewrite Hd, Ht, Hx. cbn.
    unfold earliestExpiry in He.
    replace (now' <? fold_left _ _ _) with true by lia.
    by destruct (0 <? maxUsageCount cr). }
  cbn. by rewrite Nat.eqb_refl.
Qed.

Lemma storeCookies_then_getBestCookies_witness :
  exists cookieRecord,
    fst (storeCookies "u1" 1 sampleNow (DataArray payloadHourAhead) sampleOptions [])
    = Some cookieRecord
    /\ cookies cookieRecord = Some payloadHourAhead
    /\ getBestCookies (sampleNow + 1000) noRest
         (snd (storeCookies "u1" 1 sampleNow (DataArray payloadHourAhead) sampleOptions []))
       = (Some cookieRecord, [markUsed (sampleNow + 1000) cookieRecord]).
Proof.
  apply (storeCookies_then_getBestCookies "u1" 1 sampleNow (sampleNow + 1000)
           payloadHourAhead sampleOptions noRest); vm_compute; reflexivity.
Defined.

(** *** Eviction *)

Lemma filter_partition_length (q : Cookie -> bool) (db : Collection) :
  (length (List.filter q db) + length (List.filter (fun c => negb (q c)) db)
   = length db)%nat.
Proof.
  induction db as [|c db IH]; simpl; [done|].
  destruct (q c); simpl; lia.
Qed.

Lemma deleteMany_spec (q : Cookie -> bool) (db : Collection) :
  fst (deleteMany q db) + Z.of_nat (length (snd (deleteMany q db)))
  = Z.of_nat (length db)
  /\ forall c, In c (snd (deleteMany q db)) <-> In c db /\ q c = false.
Proof.
  unfold deleteMany. simpl. split.
  - pose proof (filter_partition_length q db). lia.
  - intros c. by rewrite filter_In, negb_true_iff.
Qed.

Lemma filter_filter_implied (q keep : Cookie -> bool) (db : Collection) :
  (forall c, q c = true -> keep c = true) ->
  List.filter q (List.filter keep db) = List.filter q db.
Proof.
  intros H. induction db as [|c db IH]; simpl; [done|].
  destruct (keep c) eqn:Ek; simpl.
  - destruct (q c); by rewrite IH.
  - destruct (q c) eqn:Eq; [|done]. apply H in Eq. congruence.
Qed.

Lemma findOneByCookieId_None (cid : string) (db : Collection) :
  (forall c, In c db -> cookieId c <> cid) -> findOneByCookieId cid db = None.
Proof.
  induction db as [|x db IH]; intros H; simpl; [done|].
  destruct (String.eqb (cookieId x) cid) eqn:E.
  - apply String.eqb_eq in E. by destruct (H x (or_introl eq_refl)).
  - apply IH. intros c Hc. apply H. by right.
Qed.

(** The cleanup sweep removes exactly the documents that have expired, are
    in status [failed] or are scored below 10, and reports their number;
    what it keeps stays in order.  An artifact driven to [failed] by
    seventeen failures is gone after the sweep, so that a later feedback on
    it throws "Cookie not found" and changes nothing. *)
Theorem cleanup_evicts (now : Z) (db : Collection) :
  (fst (cleanup now db) + Z.of_nat (length (snd (cleanup now db)))
   = Z.of_nat (length db))
  /\ (forall c, In c (snd (cleanup now db)) <->
        In c db /\ status c <> failed /\ 10 <= score (quality c)
        /\ forall e, expiresAt (validity c) = Some e -> now <= e)
  /\ (forall (t now' : Z) (cid : string) (success : bool) (c : Cookie),
        uniqueKeys db -> findOneByCookieId cid db = Some c ->
        score (quality c) = 100 ->
        updateCookieQuality now' cid success
          (snd (cleanup now (failTimes 17 t cid db)))
        = (Throw CookieNotFound, snd (cleanup now (failTimes 17 t cid db)))).
Proof.
  split; [apply deleteMany_spec|]. split.
  - intros c. unfold cleanup. rewrite (proj2 (deleteMany_spec _ _)).
    unfold cleanupQuery, dateLt. rewrite !orb_false_iff.
    split; intros (Hin & H); (split; [done|]).
    + destruct H as [[He Hs] Hq]. repeat split.
      * intros E. by rewrite E in Hs.
      * lia.
      * intros e Ee. rewrite Ee in He. lia.
    + destruct H as (Hs & Hq & He). repeat split.
      * destruct (expiresAt (validity c)) as [e|]; [|done].
        specialize (He e eq_refl). lia.
      * by destruct (status c).
      * lia.
  - intros t now' cid success c Hu Hf Hs.
    destruct (failTimes_found 17 t cid db c Hu Hf) as [Hu17 Hf17].
    remember (Nat.iter 17 (fun x => qualityUpdate t false x x) c) as c17 eqn:E17.
    assert (H17 : status c17 = failed).
    { subst c17. destruct c as [i ci ck so d tg v [sc sr ls] st]. simpl in Hs. subst sc.
      by vm_compute. }
    clear E17. unfold updateCookieQuality.
    rewrite findOneByCookieId_None; [done|].
    intros x Hx Hcid. unfold cleanup in Hx.
    apply (proj2 (deleteMany_spec _ _)) in Hx as [Hx Hq].
    assert (findOneByCookieId (cookieId x) (failTimes 17 t cid db) = Some x) as Hx'
      by (apply findOneByCookieId_unique; [by destruct Hu17|done]).
    rewrite Hcid, Hf17 in Hx'. injection Hx' as <-.
    unfold cleanupQuery in Hq. rewrite H17 in Hq.
    clear -Hq. rewrite orb_true_r in Hq. discriminate Hq.
Qed.

Lemma cleanup_evicts_witness :
  updateCookieQuality 9 "c" true (snd (cleanup 5 (failTimes 17 0 "c" sampleStore)))
  = (Throw CookieNotFound, snd (cleanup 5 (failTimes 17 0 "c" sampleStore))).
Proof.
  apply (proj2 (proj2 (cleanup_evicts 5 sampleStore)) 0 9 "c"%string true
           (sampleCookie 3 "c" 100 (Some 3000000) 1)).
  - split; apply (bool_decide_unpack _); vm_compute; exact I.
  - vm_compute. reflexivity.
  - vm_compute. reflexivity.
Defined.

(** The expiry sweep deletes the documents whose expiry lies before the
    instant of the sweep and then, of the rest, the invalid ones not
    modified for 24 hours.  The three counts add up, every valid document
    that has not expired is kept, and none of the kept has expired. *)
Theorem cleanupExpiredCookies_accounts (now : Z) (updatedAt : nat -> Z)
    (db db' : Collection) (r : CleanupResult) :
  cleanupExpiredCookies now updatedAt db = (r, db') ->
  deletedCount r = deletedExpired r + deletedInvalid r
  /\ deletedCount r + Z.of_nat (length db') = Z.of_nat (length db)
  /\ (forall c, In c db' <->
        In c db /\ dateLt (expiresAt (validity c)) now = false
        /\ (isValid (validity c) = true
            \/ now - 24 * 60 * 60 * 1000 <= updatedAt (_id c)))
  /\ (forall c e, In c db' -> expiresAt (validity c) = Some e -> now <= e).
Proof.
  intros Hrun. revert Hrun.
  unfold cleanupExpiredCookies.
  set (q1 := fun c => dateLt (expiresAt (validity c)) now).
  set (q2 := fun c => negb (isValid (validity c))
                      && (updatedAt (_id c) <? now - 24 * 60 * 60 * 1000)).
  destruct (deleteMany q1 db) as [n1 db1] eqn:E1.
  destruct (deleteMany q2 db1) as [n2 db2] eqn:E2. intros [= <- <-]. cbn.
  pose proof (deleteMany_spec q1 db) as [L1 M1]. rewrite E1 in L1, M1. cbn in L1, M1.
  pose proof (deleteMany_spec q2 db1) as [L2 M2]. rewrite E2 in L2, M2. cbn in L2, M2.
  assert (Hmem : forall c, In c db2 <->
        In c db /\ dateLt (expiresAt (validity c)) now = false
        /\ (isValid (validity c) = true
            \/ now - 24 * 60 * 60 * 1000 <= updatedAt (_id c))).
  { intros c. rewrite M2, M1. unfold q1, q2. rewrite andb_false_iff, negb_false_iff.
    split; intros H; repeat split; try tauto.
    - destruct H as [_ [H|H]]; [by left|right; lia].
    - destruct H as (_ & _ & [H|H]); [by left|right; lia]. }
  split; [done|]. split; [lia|]. split; [done|].
  intros c e Hc He. apply Hmem in Hc as (_ & Hd & _).
  unfold dateLt in Hd. rewrite He in Hd. lia.
Qed.

(** Neither sweep takes away anything a selection could return: the
    artifact [getBestCookies] returns at an instant is the same whether or
    not the store was swept at that instant before. *)
Theorem eviction_keeps_selection (now : Z) (cr : Criteria) (updatedAt : nat -> Z)
    (db : Collection) :
  fst (getBestCookies now cr (snd (cleanup now db)))
  = fst (getBestCookies now cr db)
  /\ fst (getBestCookies now cr (snd (cleanupExpiredCookies now updatedAt db)))
     = fst (getBestCookies now cr db).
Proof.
  assert (Hsel : forall db1 db2,
            List.filter (bestQuery now cr) db1 = List.filter (bestQuery now cr) db2 ->
            fst (getBestCookies now cr db1) = fst (getBestCookies now cr db2)).
  { intros db1 db2 E. unfold getBestCookies, findOneSorted. rewrite E.
    by destruct (fold_left pickBest (List.filter (bestQuery now cr) db2) None). }
  split; apply Hsel.
  - unfold cleanup, deleteMany. cbn [snd]. apply filter_filter_implied.
    intros c Hq. apply bestQuery_true in Hq as (Hs & _ & (e & He & Hlt) & Hsc & _).
    unfold cleanupQuery, dateLt. rewrite Hs, He. simpl.
    replace (e <? now) with false by lia.
    by replace (score (quality c) <? 10) with false by lia.
  - unfold cleanupExpiredCookies, deleteMany. cbn [snd].
    rewrite !filter_filter_implied; [done|..].
    + intros c Hq. apply bestQuery_true in Hq as (_ & _ & (e & He & Hlt) & _).
      unfold dateLt. rewrite He. by replace (e <? now) with false by lia.
    + intros c Hq. apply bestQuery_true in Hq as (_ & Hv & _).
      by rewrite Hv.
Qed.

Lemma cleanupExpiredCookies_accounts_witness :
  deletedCount (fst (cleanupExpiredCookies 1000000 (fun _ => 0) sampleStore))
  + Z.of_nat (length (snd (cleanupExpiredCookies 1000000 (fun _ => 0) sampleStore)))
  = Z.of_nat (length sampleStore).
Proof.
  destruct (cleanupExpiredCookies_accounts 1000000 (fun _ => 0) sampleStore
              (snd (cleanupExpiredCookies 1000000 (fun _ => 0) sampleStore))
              (fst (cleanupExpiredCookies 1000000 (fun _ => 0) sampleStore)))
    as (_ & H & _).
  - vm_compute. reflexivity.
  - exact H.
Defined.

(** *** Invariants of the store operations *)

Lemma Forall_updateById (P : Cookie -> Prop) (i : nat) (f : Cookie -> Cookie)
    (db : Collection) :
  (forall c, In c db -> P c -> P (f c)) -> Forall P db -> Forall P (updateById i f db).
Proof.
  intros Hf H. induction db as [|c db IH]; simpl; [done|].
  apply Forall_cons in H as [Hc H].
  destruct (Nat.eqb (_id c) i).
  - constructor; [|done]. apply Hf; [by left|done].
  - constructor; [done|]. apply IH; [|done]. intros x Hx. apply Hf. by right.
Qed.

Lemma Forall_updateByCookieId (P : Cookie -> Prop) (cid : string)
    (f : Cookie -> Cookie) (db : Collection) :
  (forall c, P c -> P (f c)) -> Forall P db ->
  Forall P (snd (updateByCookieId cid f db)).
Proof.
  intros Hf H. induction db as [|c db IH]; simpl; [done|].
  apply Forall_cons in H as [Hc H].
  destruct (String.eqb (cookieId c) cid); simpl.
  - constructor; [by apply Hf|done].
  - destruct (updateByCookieId cid f db) as [r rest]. simpl in *.
    constructor; [done|by apply IH].
Qed.

Lemma Forall_filter_keep (P : Cookie -> Prop) (q : Cookie -> bool) (db : Collection) :
  Forall P db -> Forall P (List.filter q db).
Proof.
  rewrite !Forall_forall. intros H c Hc%list_elem_of_In%filter_In.
  apply H, list_elem_of_In. tauto.
Qed.

Lemma applyOp_scoresInRange (db : Collection) (op : StoreOp) :
  scoresInRange db -> scoresInRange (applyOp db op).
Proof.
  unfold scoresInRange. intros H.
  destruct op as [uuid oid now d o|now cr|now cid success|now cid|now|now upd]; simpl.
  - unfold storeCookies. destruct (existsb _ db); [done|]. simpl.
    apply Forall_app. split; [done|]. constructor; [simpl; lia|constructor].
  - unfold getBestCookies.
    destruct (findOneSorted (bestQuery now cr) db) as [c|]; [|done]. simpl.
    by apply Forall_updateById.
  - unfold updateCookieQuality.
    destruct (findOneByCookieId cid db) as [c|] eqn:E; [|done]. simpl.
    apply findOneByCookieId_Some in E as [Hin _].
    rewrite Forall_forall in H. pose proof (H c ltac:(by apply list_elem_of_In)) as Hc.
    apply Forall_updateById; [|by apply Forall_forall].
    intros x _ _. unfold qualityUpdate. destruct success; simpl; lia.
  - unfold updateCookieUsage. by apply Forall_updateByCookieId.
  - unfold cleanup, deleteMany. simpl. by apply Forall_filter_keep.
  - unfold cleanupExpiredCookies, deleteMany. simpl. by do 2 apply Forall_filter_keep.
Qed.

(** Scores stay within [0,100]: if every stored score is in that range,
    it still is after any sequence of stores, selections, feedbacks, usage
    updates and sweeps. *)
Theorem scores_stay_in_range (ops : list StoreOp) (db : Collection) :
  scoresInRange db -> scoresInRange (fold_left applyOp ops db).
Proof.
  revert db. induction ops as [|op ops IH]; intros db H; simpl; [done|].
  by apply IH, applyOp_scoresInRange.
Qed.

Lemma scores_stay_in_range_witness :
  scoresInRange
    (fold_left applyOp
       [OpFeedback 5 "b" true; OpSelect 1000000 defaultCriteria;
        OpFeedback 6 "c" false; OpCleanup 1000000]
       sampleStore).
Proof.
  apply scores_stay_in_range. unfold scoresInRange, sampleStore.
  repeat constructor; vm_compute; discriminate.
Defined.

Lemma findById_app_l (i : nat) (db1 db2 : Collection) (c : Cookie) :
  findById i db1 = Some c -> findById i (db1 ++ db2) = Some c.
Proof.
  induction db1 as [|x db1 IH]; simpl; [done|].
  destruct (Nat.eqb (_id x) i); [done|apply IH].
Qed.

Lemma findById_updateById_cases (i j : nat) (f : Cookie -> Cookie)
    (db : Collection) (c c' : Cookie) :
  (forall x, _id (f x) = _id x) ->
  findById i db = Some c -> findById i (updateById j f db) = Some c' ->
  c' = c \/ c' = f c.
Proof.
  intros Hf H H'. destruct (decide (i = j)) as [->|Hne].
  - rewrite findById_updateById, H in H' by done. injection H' as <-. by right.
  - rewrite findById_updateById_ne in H' by done. left. congruence.
Qed.

Lemma findById_updateByCookieId_cases (i : nat) (cid : string) (f : Cookie -> Cookie)
    (db : Collection) (c c' : Cookie) :
  (forall x, _id (f x) = _id x) ->
  findById i db = Some c -> findById i (snd (updateByCookieId cid f db)) = Some c' ->
  c' = c \/ c' = f c.
Proof.
  intros Hf. induction db as [|x db IH]; simpl; [done|].
  destruct (String.eqb (cookieId x) cid); simpl.
  - rewrite Hf. destruct (Nat.eqb (_id x) i).
    + intros [= <-] [= <-]. by right.
    + intros H H'. left. congruence.
  - destruct (updateByCookieId cid f db) as [r rest]. simpl in *.
    destruct (Nat.eqb (_id x) i).
    + intros [= <-] [= <-]. by left.
    + apply IH.
Qed.

Lemma findById_filter (i : nat) (q : Cookie -> bool) (db : Collection) (c c' : Cookie) :
  NoDup (map _id db) ->
  findById i db = Some c -> findById i (List.filter q db) = Some c' -> c' = c.
Proof.
  intros Hnd H H'. apply findById_In in H' as [Hin Hi].
  apply filter_In in Hin as [Hin _].
  pose proof (findById_unique db c' Hnd Hin) as E. rewrite Hi, H in E. congruence.
Qed.

Lemma NoDup_filter_ids (q : Cookie -> bool) (db : Collection) :
  NoDup (map _id db) -> NoDup (map _id (List.filter q db)).
Proof.
  induction db as [|c db IH]; simpl; [done|].
  intros [Hc Hnd]%NoDup_cons. destruct (q c); simpl; [|by apply IH].
  apply NoDup_cons. split; [|by apply IH].
  intros Hin%list_elem_of_In%in_map_iff. destruct Hin as (x & Hx & Hin%filter_In).
  apply Hc, list_elem_of_In, in_map_iff. exists x. tauto.
Qed.

(** Usage counts never go down: where [_id]s are unique, a document still
    stored after any one store operation keeps its [cookieId] and has a
    usage count at least as large as before. *)
Theorem usageCount_never_decreases (op : StoreOp) (db : Collection) (i : nat)
    (c c' : Cookie) :
  NoDup (map _id db) ->
  findById i db = Some c -> findById i (applyOp db op) = Some c' ->
  usageCount (validity c) <= usageCount (validity c')
  /\ cookieId c' = cookieId c.
Proof.
  intros Hnd H.
  destruct op as [uuid oid now d o|now cr|now cid success|now cid|now|now upd]; simpl.
  - unfold storeCookies. destruct (existsb _ db); simpl.
    + intros H'. assert (c' = c) as -> by congruence. split; [lia|done].
    + rewrite (findById_app_l _ _ _ _ H). intros [= <-]. split; [lia|done].
  - unfold getBestCookies.
    destruct (findOneSorted (bestQuery now cr) db) as [b|]; simpl.
    + intros H'.
      destruct (findById_updateById_cases i (_id b) (markUsed now) db c c'
                  (fun _ => eq_refl) H H') as [->| ->]; simpl; split; (lia || done).
    + intros H'. assert (c' = c) as -> by congruence. split; [lia|done].
  - unfold updateCookieQuality.
    destruct (findOneByCookieId cid db) as [b|]; simpl.
    + intros H'.
      destruct (findById_updateById_cases _ _ _ _ _ _
                  (qualityUpdate_id now success b) H H') as [->| ->].
      * split; [lia|done].
      * unfold qualityUpdate. destruct success; simpl; split; (lia || done).
    + intros H'. assert (c' = c) as -> by congruence. split; [lia|done].
  - unfold updateCookieUsage. intros H'.
    destruct (findById_updateByCookieId_cases i cid (markUsed now) db c c'
                (fun _ => eq_refl) H H') as [->| ->]; simpl; split; (lia || done).
  - unfold cleanup, deleteMany. simpl. intros H'.
    rewrite (findById_filter _ _ _ _ _ Hnd H H'). split; [lia|done].
  - unfold cleanupExpiredCookies, deleteMany. simpl. intros H'.
    assert (exists c1, findById i (List.filter
              (fun c0 => negb (dateLt (expiresAt (validity c0)) now)) db) = Some c1)
      as [c1 H1].
    { apply findById_In in H' as [Hin Hi]. apply filter_In in Hin as [Hin _].
      exists c'. rewrite <- Hi.
      apply findById_unique; [by apply NoDup_filter_ids|done]. }
    rewrite (findById_filter _ _ _ _ _ (NoDup_filter_ids _ _ Hnd) H1 H').
    rewrite (findById_filter _ _ _ _ _ Hnd H H1). split; [lia|done].
Qed.

Lemma usageCount_never_decreases_witness :
  exists c', findById 3 (applyOp sampleStore (OpSelect 1000000 defaultCriteria))
             = Some c'
             /\ 1 <= usageCount (validity c') /\ cookieId c' = "c"%string.
Proof.
  eexists. split; [vm_compute; reflexivity|].
  apply (usageCount_never_decreases (OpSelect 1000000 defaultCriteria) sampleStore 3
           (sampleCookie 3 "c" 100 (Some 3000000) 1) _).
  - apply (bool_decide_unpack _). vm_compute. exact I.
  - vm_compute. reflexivity.
  - vm_compute. reflexivity.
Defined.





End StoreQueries.

(** ** The refresh trackers: life cycle, scheduling and housekeeping *)
Section TrackerLifeCycle.
Import CookieRefreshTracker.
Import CookieRefreshTracker.Enhanced.

Lemma findOneAndUpdate_app_fresh (id : string) (u : CookieRefresh -> CookieRefresh)
    (db : Collection) (r : CookieRefresh) :
  ~ In id (map refreshId db) -> byRefreshIdInProgress id r = true ->
  findOneAndUpdate (byRefreshIdInProgress id) u (db ++ [r]) = Some (u r, db ++ [u r]).
Proof.
  intros Hn Hr. induction db as [|x db IH]; simpl.
  - by rewrite Hr.
  - simpl in Hn. destruct (byRefreshIdInProgress id x) eqn:E.
    + unfold byRefreshIdInProgress in E. apply andb_true_iff in E as [E _].
      apply String.eqb_eq in E. tauto.
    + rewrite IH by tauto. done.
Qed.

(** A refresh started with proxies enabled and arguments that pass
    validation, under an id no record carries yet, appends one record in
    progress.  Reporting it successful at [t] then depends on the schema.
    Where [duration] is typed as a Number the report throws the cast error
    and the record stays as it was, in progress.  Where the schema stores
    the operator documents the record is returned completed: status
    [success], next refresh due 30 minutes after [t], the counts floored
    at zero; but what it holds under [duration] is the document
    [{ $subtract: [t, '$startTime'] }], not the time elapsed, and its
    metadata is replaced by the document [{ $mergeObjects: [...] }]. *)
Theorem startRefresh_then_markSuccess (schema : Schema) (env : option string)
    (d : option Z) (uuid : string) (t0 t : Z) (eventId proxy : JsValue)
    (md0 md : gmap string string) (cc rc : Z) (db : Collection) :
  env <> Some "true"%string ->
  validateInput JsNull (orNull eventId) (orNull proxy) = [] ->
  ~ In uuid (map refreshId db) ->
  exists rec,
    startRefresh env d uuid t0 eventId proxy md0 db = (Ok rec, db ++ [rec])
    /\ refreshId rec = uuid /\ status rec = in_progress /\ startTime rec = t0
    /\ match schema with
       | DurationNumber =>
           markSuccess schema t uuid cc rc md (db ++ [rec])
           = (Throw CastError, db ++ [rec])
       | DurationMixed =>
           exists rec',
             markSuccess schema t uuid cc rc md (db ++ [rec])
             = (Ok rec', db ++ [rec'])
             /\ refreshId rec' = uuid /\ status rec' = success
             /\ startTime rec' = t0
             /\ completionTime rec' = Some t
             /\ nextScheduledRefresh rec' = Some (t + 30 * 60 * 1000)
             /\ duration rec' = Some (SubtractDoc t "$startTime")
             /\ metadata rec'
                = {[ "$mergeObjects"%string := MergeObjectsArgs "$metadata" md ]}
             /\ cookieCount rec' = Some (Z.max 0 cc)
             /\ retryCount rec' = Some (Z.max 0 rc)
       end.
Proof.
  intros Henv Hval Hfresh. unfold startRefresh. rewrite Hval. cbn [length Nat.ltb Nat.leb].
  rewrite bool_decide_eq_false_2 by done.
  eexists. split; [reflexivity|]. split; [reflexivity|].
  split; [reflexivity|]. split; [reflexivity|].
  unfold markSuccess. rewrite validateInput_refreshId. cbn [length Nat.ltb Nat.leb].
  destruct schema; [reflexivity|].
  rewrite (findOneAndUpdate_app_fresh uuid); [|done|].
  - eexists. by repeat split.
  - unfold byRefreshIdInProgress, created. cbn. by rewrite String.eqb_refl.
Qed.

Lemma startRefresh_then_markSuccess_witness :
  exists rec,
    startRefresh None None "r9" 1000 (JsString "E1") JsNull ∅ oneAttempt
    = (Ok rec, oneAttempt ++ [rec])
    /\ markSuccess DurationNumber 4000 "r9" (-2) 0 ∅ (oneAttempt ++ [rec])
       = (Throw CastError, oneAttempt ++ [rec]).
Proof.
  destruct (startRefresh_then_markSuccess DurationNumber None None "r9" 1000 4000
              (JsString "E1") JsNull ∅ ∅ (-2) 0 oneAttempt)
    as (rec & H1 & _ & _ & _ & H2).
  - discriminate.
  - vm_compute. reflexivity.
  - apply (bool_decide_unpack _). vm_compute. exact I.
  - exists rec. split; [exact H1|exact H2].
Defined.

Lemma calculateBackoffDelay_between (n : Z) :
  1 <= n -> 5 * 60 * 1000 <= calculateBackoffDelay n <= 60 * 60 * 1000.
Proof.
  intros Hn. unfold calculateBackoffDelay.
  assert (Z.min (n - 1) 4 = 0 \/ Z.min (n - 1) 4 = 1 \/ Z.min (n - 1) 4 = 2
          \/ Z.min (n - 1) 4 = 3 \/ Z.min (n - 1) 4 = 4) as [->|[->|[->|[->| ->]]]]
    by lia; vm_compute; split; discriminate.
Qed.

(** The enhanced [markFailed] on a record whose stored failure count is
    absent or not negative.  It completes only under a schema that stores
    the operator documents of its update; the record it then returns is
    failed, the count it records is at least one, the next attempt is
    scheduled no sooner than five minutes and no later than one hour after
    the failure, and the message stored is cut to its first 500
    characters.  Under a schema that types [duration] as a Number a call
    with a non-empty message throws the cast error and schedules
    nothing. *)
Theorem markFailed_schedules_retry (schema : Schema) (now : Z) (id : string)
    (msg : JsValue) (rc : Z) (md : gmap string string) (db : Collection)
    (cur : CookieRefresh) :
  findOne (byRefreshId id) db = Some cur ->
  0 <= default 0 (consecutiveFailures cur) ->
  (forall rec db', markFailed schema now id msg rc md db = (Ok rec, db') ->
     schema = DurationMixed
     /\ status rec = failed
     /\ (exists n, consecutiveFailures rec = Some n /\ 1 <= n)
     /\ (exists next, nextScheduledRefresh rec = Some next
                      /\ now + 5 * 60 * 1000 <= next <= now + 60 * 60 * 1000)
     /\ (exists m s, msg = JsString s /\ errorMessage rec = Some m
                     /\ (String.length m <= 500)%nat /\ String.prefix m s = true))
  /\ (schema = DurationNumber ->
      toBoolean msg = true -> typeof msg = "string"%string ->
      markFailed schema now id msg rc md db = (Throw CastError, db)).
Proof.
  intros Hcur Hcf. split.
  - intros rec db'. unfold markFailed. rewrite validateInput_refreshId. simpl.
    destruct msg as [| |?|?|[|a m]|?]; try done.
    rewrite Hcur. destruct schema; [done|].
    match goal with |- context [findOneAndUpdate _ ?f db] => set (u := f) end.
    destruct (findOneAndUpdate (byRefreshIdInProgress id) u db) as [[r1 d1]|] eqn:E; [|done].
    intros [= <- <-].
    apply findOneAndUpdate_Some in E as (pre & r & post & _ & _ & -> & _).
    subst u. cbn.
    pose proof (calculateBackoffDelay_between (default 0 (consecutiveFailures cur) + 1)
                  ltac:(lia)) as Hb.
    split; [done|]. split; [done|]. split; [eexists; split; [done|lia]|].
    split; [eexists; split; [done|lia]|].
    exists (String a (String.substring 0 499 m)), (String a m).
    split; [done|]. split; [done|].
    assert (Hsub : forall k s, (String.length (String.substring 0 k s) <= k)%nat
                                /\ String.prefix (String.substring 0 k s) s = true).
    { clear. induction k as [|k IH]; intros s.
      - destruct s; simpl; split; (lia || done).
      - destruct s as [|c s]; simpl; [split; [lia|done]|].
        destruct (IH s) as [IH1 IH2]. split; [lia|].
        destruct (Ascii.ascii_dec c c); [done|congruence]. }
    destruct (Hsub 499%nat m) as [H1 H2]. split; [simpl; lia|].
    simpl. destruct (Ascii.ascii_dec a a); [done|congruence].
  - intros -> Hb Ht. unfold markFailed. rewrite validateInput_refreshId. simpl.
    destruct msg as [| |?|?|[|a m]|?]; try done.
    by rewrite Hcur.
Qed.

Lemma markFailed_schedules_retry_witness :
  exists rec db' next,
    markFailed DurationMixed 2000 "r1" (JsString "timeout") 0 ∅ oneAttempt = (Ok rec, db')
    /\ nextScheduledRefresh rec = Some next
    /\ 2000 + 5 * 60 * 1000 <= next <= 2000 + 60 * 60 * 1000.
Proof.
  destruct (markFailed_schedules_retry DurationMixed 2000 "r1" (JsString "timeout") 0 ∅
              oneAttempt
              (created None "r1" 1000 (JsString "E1") (JsString "no_proxy") ∅))
    as (H & _).
  - vm_compute. reflexivity.
  - vm_compute. discriminate.
  - destruct (markFailed DurationMixed 2000 "r1" (JsString "timeout") 0 ∅ oneAttempt)
      as [[rec|e] db'] eqn:E; [|vm_compute in E; discriminate E].
    destruct (H rec db' eq_refl) as (_ & _ & _ & (next & Hn & Hb) & _).
    exists rec, db', next. split; [reflexivity|]. split; [exact Hn|exact Hb].
Defined.

(** *** When the next refresh is due *)

Lemma head_sortDocs (leb : CookieRefresh -> CookieRefresh -> bool)
    (l : list CookieRefresh) (h : CookieRefresh) :
  (forall a b, leb a b = true \/ leb b a = true) ->
  (forall a b c, leb a b = true -> leb b c = true -> leb a c = true) ->
  head (sortDocs leb l) = Some h ->
  In h l /\ forall x, In x l -> leb h x = true.
Proof.
  intros Htot Htr Hh.
  pose proof (sortDocs_sorted leb l Htot Htr) as Hs.
  destruct (sortDocs leb l) as [|y rest] eqn:E; [done|].
  injection Hh as ->.
  assert (Hmem : forall x, In x l <-> In x (h :: rest))
    by (intros x; by rewrite <- E, sortDocs_In).
  split; [apply Hmem; by left|].
  intros x Hx. apply Hmem in Hx as [<-|Hx].
  - by destruct (Htot h h).
  - apply StronglySorted_inv in Hs as [_ Hall].
    rewrite Forall_forall in Hall. apply Hall. by apply list_elem_of_In.
Qed.

(** With no successful refresh on record a refresh is due.  After the
    plain tracker marks an attempt successful at [t], later than every
    success recorded before, a refresh is due exactly from 30 minutes after
    [t] on. *)
Theorem isRefreshDue_after_success :
  (forall (now : Z) (db : Collection),
     (forall x, In x db -> status x <> success) -> Plain.isRefreshDue now db = true)
  /\ (forall (t now : Z) (id : string) (cc rc : Z) (md : gmap string string)
        (db db' : Collection) (rec : CookieRefresh),
        Plain.markSuccess t id cc rc md db = (Some rec, db') ->
        (forall x c, In x db -> status x = success ->
                     completionTime x = Some c -> c < t) ->
        Plain.isRefreshDue now db' = (t + 30 * 60 * 1000 <=? now)).
Proof.
  split.
  - intros now db Hno. unfold Plain.isRefreshDue.
    replace (List.filter _ db) with (@nil CookieRefresh); [done|].
    symmetry. induction db as [|x db IH]; simpl; [done|].
    destruct (Status_eqb (status x) success) eqn:E.
    + destruct (Hno x (or_introl eq_refl)). by destruct (status x).
    + apply IH. intros y Hy. apply Hno. by right.
  - intros t now id cc rc md db db' rec Hrun Hold.
    unfold Plain.markSuccess in Hrun.
    match type of Hrun with context [findOneAndUpdate _ ?f db] => set (u := f) in * end.
    destruct (findOneAndUpdate (byRefreshId id) u db) as [[r1 d1]|] eqn:E; [|done].
    injection Hrun as <- <-.
    apply findOneAndUpdate_Some in E as (pre & r & post & -> & -> & -> & _).
    unfold Plain.isRefreshDue.
    set (L := List.filter (fun r0 => Status_eqb (status r0) success) (pre ++ u r :: post)).
    assert (Hin : In (u r) L).
    { apply filter_In. split; [apply in_or_app; right; by left|done]. }
    destruct (head (sortDocs (keyLeb completionTime (-1)) L)) as [h|] eqn:Eh.
    + apply head_sortDocs in Eh as [Hh Hbest];
        [|apply keyLeb_total|apply keyLeb_trans].
      specialize (Hbest _ Hin). unfold keyLeb, optLeb in Hbest. simpl in Hbest.
      apply filter_In in Hh as [Hh Hs].
      assert (h = u r) as ->; [|done].
      apply in_app_or in Hh as [Hh|[Hh|Hh]]; [|done|];
        (destruct (completionTime h) as [c|] eqn:Ec; [|done];
         assert (c < t); [|lia];
         apply (Hold h c); [apply in_or_app; simpl; tauto| |done];
         by destruct (status h)).
    + exfalso.
      destruct (sortDocs (keyLeb completionTime (-1)) L) as [|y rest] eqn:Es; [|done].
      apply (f_equal (@length _)) in Es. rewrite sortDocs_length in Es.
      destruct L; [done|discriminate].
Qed.

Lemma isRefreshDue_after_success_witness :
  Plain.isRefreshDue 1802000 plainSucceeded = (2000 + 30 * 60 * 1000 <=? 1802000).
Proof.
  apply (proj2 isRefreshDue_after_success 2000 1802000 "r1" 3 0 ∅ oneAttempt
           plainSucceeded
           (match fst (Plain.markSuccess 2000 "r1" 3 0 ∅ oneAttempt) with
            | Some r => r
            | None => created None "r1" 0 JsNull JsNull ∅
            end)).
  - vm_compute. reflexivity.
  - intros x c [<-|[]] Hs. vm_compute in Hs. discriminate.
Defined.

(** *** Stuck operations *)


Lemma isStuck_resetRecord (cutoff now : Z) (r : CookieRefresh) :
  isStuck cutoff (resetRecord now r) = false.
Proof. done. Qed.


Lemma resetStuckOperations_ids (now maxDurationMs : Z) (db : Collection) :
  map refreshId (snd (resetStuckOperations now maxDurationMs db)) = map refreshId db.
Proof.
  unfold resetStuckOperations. cbn [snd]. rewrite map_map.
  apply map_ext. intros x. by destruct (isStuck (now - maxDurationMs) x).
Qed.

(** A completion report that arrives after its operation was reset loses:
    with unique ids, any report for a reset operation throws and leaves the
    collection as the reset left it.  For a well-formed report the error
    is "not found or already completed" where the schema stores the
    operator documents of the update, and the cast error where it types
    [duration] as a Number. *)
Theorem report_after_reset (schema : Schema) (now maxDurationMs t : Z)
    (db : Collection) (r0 : CookieRefresh) (rep : Report) :
  NoDup (map refreshId db) -> In r0 db ->
  isStuck (now - maxDurationMs) r0 = true ->
  exists e,
    report schema t (refreshId r0) rep (snd (resetStuckOperations now maxDurationMs db))
    = (Throw e, snd (resetStuckOperations now maxDurationMs db))
    /\ (wellFormed rep -> e = settledError schema).
Proof.
  intros Hnd Hin Hstuck.
  apply (report_not_in_progress schema t rep
           (snd (resetStuckOperations now maxDurationMs db)) (resetRecord now r0)).
  - by rewrite resetStuckOperations_ids.
  - unfold resetStuckOperations. cbn [snd]. apply in_map_iff.
    exists r0. by rewrite Hstuck.
  - done.
Qed.

Lemma report_after_reset_witness :
  exists e,
    report DurationNumber 9000000 "old" (ReportSuccess 5 0 ∅)
      (snd (resetStuckOperations 8000000 (30 * 60 * 1000) sampleAttempts))
    = (Throw e, snd (resetStuckOperations 8000000 (30 * 60 * 1000) sampleAttempts))
    /\ (wellFormed (ReportSuccess 5 0 ∅) -> e = CastError).
Proof.
  apply (report_after_reset DurationNumber 8000000 (30 * 60 * 1000) 9000000 sampleAttempts
           (created None "old" 0 (JsString "E1") JsNull ∅) (ReportSuccess 5 0 ∅)).
  - apply (bool_decide_unpack _). vm_compute. exact I.
  - left. reflexivity.
  - vm_compute. reflexivity.
Defined.

(** *** Pruning the history *)

Lemma filter_length_split (q : CookieRefresh -> bool) (l : list CookieRefresh) :
  (length (List.filter q l) + length (List.filter (fun r => negb (q r)) l)
   = length l)%nat.
Proof.
  induction l as [|x l IH]; simpl; [done|]. destruct (q x); simpl; lia.
Qed.

(** The enhanced tracker's cleanup never deletes an operation in progress:
    it keeps exactly the records in progress and those started at or after
    the cutoff.  The plain tracker's cleanup keeps exactly the records
    started at or after the cutoff, so it also deletes operations still in
    progress.  Each reports the number it deleted. *)
Theorem cleanup_keeps_in_progress (now maxAge : Z) (db : Collection) :
  (forall r, In r (snd (Enhanced.cleanup now maxAge db)) <->
     In r db /\ (status r = in_progress \/ now - maxAge <= startTime r))
  /\ fst (Enhanced.cleanup now maxAge db)
     + Z.of_nat (length (snd (Enhanced.cleanup now maxAge db)))
     = Z.of_nat (length db)
  /\ (forall r, In r (snd (Plain.cleanup now maxAge db)) <->
        In r db /\ now - maxAge <= startTime r)
  /\ fst (Plain.cleanup now maxAge db)
     + Z.of_nat (length (snd (Plain.cleanup now maxAge db)))
     = Z.of_nat (length db).
Proof.
  unfold Enhanced.cleanup, Plain.cleanup. cbn [fst snd].
  split; [|split; [|split]].
  - intros r. rewrite filter_In, negb_true_iff, andb_false_iff.
    unfold isTerminal. destruct (status r); simpl; split; intros [Hin H];
      (split; [done|]); destruct H as [H|H]; try done; auto; try lia.
  - pose proof (filter_length_split
                  (fun r => (startTime r <? now - maxAge) && isTerminal r) db). lia.
  - intros r. rewrite filter_In, negb_true_iff. split; intros [Hin H]; split; (done || lia).
  - pose proof (filter_length_split (fun r => startTime r <? now - maxAge) db). lia.
Qed.

(** *** The first variant: reports on unknown and on completed attempts *)

Lemma findOne_findOneAndUpdate (q : CookieRefresh -> bool)
    (u : CookieRefresh -> CookieRefresh) (db : Collection) (r : CookieRefresh) :
  findOne q db = Some r ->
  exists db', findOneAndUpdate q u db = Some (u r, db')
              /\ length db' = length db /\ In (u r) db'.
Proof.
  induction db as [|x db IH]; simpl; [done|].
  destruct (q x).
  - intros [= <-]. eexists. split; [done|]. split; [done|by left].
  - intros H. destruct (IH H) as (db' & -> & Hl & Hin).
    eexists. split; [done|]. split; [simpl; lia|by right].
Qed.

(** In the first variant of the service file a report on an id without a
    record throws "Refresh record not found" and changes nothing; a report
    on an existing record is applied whatever its status: [markFailed]
    returns it as failed, due again five minutes later, with the duration
    counted from its start. *)
Theorem standalone_reports (now : Z) (id : string) (cc rc : Z) (msg : string)
    (md : gmap string string) (db : Collection) :
  (findOne (byRefreshId id) db = None ->
   Standalone.markSuccess now id cc rc md db = (Throw Standalone.RecordNotFound, db)
   /\ Standalone.markFailed now id msg rc md db = (Throw Standalone.RecordNotFound, db))
  /\ (forall r, findOne (byRefreshId id) db = Some r ->
        exists rec db',
          Standalone.markFailed now id msg rc md db = (Ok (Some rec), db')
          /\ In rec db' /\ length db' = length db
          /\ refreshId rec = refreshId r /\ status rec = failed
          /\ nextScheduledRefresh rec = Some (now + 5 * 60 * 1000)
          /\ duration rec = Some (Millis (now - startTime r))
          /\ errorMessage rec = Some msg).
Proof.
  split.
  - intros Hnone. unfold Standalone.markSuccess, Standalone.markFailed.
    by rewrite Hnone.
  - intros r Hr. unfold Standalone.markFailed. rewrite Hr.
    match goal with |- context [findOneAndUpdate _ ?f db] => set (u := f) end.
    destruct (findOne_findOneAndUpdate (byRefreshId id) u db r Hr)
      as (db' & -> & Hlen & Hin).
    exists (u r), db'. by repeat split.
Qed.

Lemma standalone_reports_witness :
  exists rec db',
    Standalone.markFailed 5000 "r1" "late" 0 ∅ plainSucceeded = (Ok (Some rec), db')
    /\ status rec = failed.
Proof.
  destruct (proj2 (standalone_reports 5000 "r1" 0 0 "late" ∅ plainSucceeded)
              (match findOne (byRefreshId "r1") plainSucceeded with
               | Some r => r
               | None => created None "r1" 0 JsNull JsNull ∅
               end))
    as (rec & db' & H1 & _ & _ & _ & H2 & _).
  - vm_compute. reflexivity.
  - exists rec, db'. split; [exact H1|exact H2].
Defined.

Lemma cleanup_keeps_in_progress_witness :
  In (created None "old" 0 (JsString "E1") JsNull ∅)
     (snd (Enhanced.cleanup 9000000 1000 sampleAttempts)).
Proof.
  apply (proj1 (cleanup_keeps_in_progress 9000000 1000 sampleAttempts)).
  split; [left; reflexivity|left; reflexivity].
Defined.

End TrackerLifeCycle.

(** ** The proxy rotator: quarantine and fresh proxies *)
Section RotatorHealth.
Import ProxyRotator.

Lemma getRandomProxy_set (random : Q) (avoid : bool) (proxies : list Proxy)
    (s : gset string) :
  snd (getRandomProxy random avoid proxies s) = s
  \/ snd (getRandomProxy random avoid proxies s) = ∅.
Proof.
  unfold getRandomProxy. destruct (length proxies =? 0)%nat; [by left|].
  destruct (avoid && (0 <? size s)%nat).
  - destruct (length (List.filter _ proxies) =? 0)%nat;
      match goal with |- context [at_index ?l ?i] => destruct (at_index l i) end;
      simpl; auto.
  - match goal with |- context [at_index ?l ?i] => destruct (at_index l i) end;
      simpl; auto.
Qed.

Lemma getRandomProxy_some (random : Q) (avoid : bool) (proxies : list Proxy)
    (s : gset string) :
  (0 <= random)%Q -> (random < 1)%Q -> proxies <> [] ->
  exists p s',
    getRandomProxy random avoid proxies s = (Ok (Some p), s') /\ In p proxies
    /\ (avoid = true -> (exists q, In q proxies /\ proxy q ∉ s) ->
        s' = s /\ proxy p ∉ s).
Proof.
  intros H0 H1 Hne. unfold getRandomProxy.
  destruct proxies as [|p0 ps]; [done|]. set (proxies := p0 :: ps) in *.
  assert (Hlen : (0 < length proxies)%nat) by (simpl; lia).
  replace (length proxies =? 0)%nat with false by (symmetry; apply Nat.eqb_neq; lia).
  set (avail := List.filter (fun p => bool_decide (proxy p ∉ s)) proxies).
  destruct (avoid && (0 <? size s)%nat) eqn:Eav.
  - destruct (length avail =? 0)%nat eqn:El.
    + apply Nat.eqb_eq, length_zero_iff_nil in El.
      destruct (at_index_range proxies (randomIndex random (length proxies)))
        as (p & Hp & Hin); [by apply randomIndex_range|].
      rewrite Hp. exists p, ∅. split; [done|]. split; [done|].
      intros _ (q & Hq & Hnf). exfalso.
      assert (In q avail) as Hq'
        by (apply filter_In; split; [done|by apply bool_decide_eq_true_2]).
      by rewrite El in Hq'.
    + apply Nat.eqb_neq in El.
      destruct (at_index_range avail (randomIndex random (length avail)))
        as (p & Hp & Hin); [apply randomIndex_range; [done..|lia]|].
      rewrite Hp. exists p, s.
      apply filter_In in Hin as [Hin Hnf]. apply bool_decide_eq_true_1 in Hnf.
      by repeat split.
  - destruct (at_index_range proxies (randomIndex random (length proxies)))
      as (p & Hp & Hin); [by apply randomIndex_range|].
    rewrite Hp. exists p, s. split; [done|]. split; [done|].
    intros -> _. split; [done|]. simpl in Eav. apply Nat.ltb_ge in Eav.
    assert (s = ∅) as -> by (apply leibniz_equiv, size_empty_iff; lia).
    apply not_elem_of_empty.
Qed.

Lemma freshLoop_some (fuel : nat) (draws : nat -> Q) (k : nat)
    (current : option Proxy) (proxies : list Proxy) (s : gset string) :
  (forall i, (0 <= draws i)%Q /\ (draws i < 1)%Q) -> proxies <> [] ->
  exists p s', freshLoop fuel draws k current proxies s = (Ok (Some p), s')
               /\ In p proxies.
Proof.
  intros Hd Hne. revert k s. induction fuel as [|fuel IH]; intros k s; simpl.
  - destruct (getRandomProxy_some (draws k) false proxies s)
      as (p & s' & -> & Hin & _); [apply Hd..|done|]. by exists p, s'.
  - destruct (getRandomProxy_some (draws k) true proxies s)
      as (p & s' & -> & Hin & _); [apply Hd..|done|].
    match goal with |- context [if ?b then _ else _] => destruct b end;
      [by exists p, s'|apply IH].
Qed.

(** On a non-empty proxy list, with every draw in [0,1), [getFreshProxy]
    returns a proxy of the list.  When the current proxy is in the failed
    set and some proxy of the list is not, the proxy returned is not in the
    failed set either, differs from the current one, and the failed set is
    left as it was. *)
Theorem getFreshProxy_picks (draws : nat -> Q) (current : option Proxy)
    (proxies : list Proxy) (s : gset string) :
  (forall i, (0 <= draws i)%Q /\ (draws i < 1)%Q) -> proxies <> [] ->
  (exists p s', getFreshProxy draws current proxies s = (Ok (Some p), s')
                /\ In p proxies)
  /\ (forall c, current = Some c -> proxy c ∈ s ->
        (exists q, In q proxies /\ proxy q ∉ s) ->
        exists p, getFreshProxy draws current proxies s = (Ok (Some p), s)
                  /\ In p proxies /\ (proxy p ∉ s) /\ proxy p <> proxy c).
Proof.
  intros Hd Hne. split.
  - unfold getFreshProxy. destruct (length proxies <=? 1)%nat.
    + destruct (getRandomProxy_some (draws 0%nat) true proxies s)
        as (p & s' & -> & Hin & _); [apply Hd..|done|]. by exists p, s'.
    + by apply freshLoop_some.
  - intros c -> Hc Hq.
    destruct (getRandomProxy_some (draws 0%nat) true proxies s)
      as (p & s' & E & Hin & Hav); [apply Hd..|done|].
    destruct (Hav eq_refl Hq) as [-> Hp].
    assert (Hne' : proxy p <> proxy c) by (intros Heq; by rewrite Heq in Hp).
    exists p. unfold getFreshProxy. destruct (length proxies <=? 1)%nat.
    + rewrite E. by repeat split.
    + cbn [freshLoop]. rewrite E.
      replace (String.eqb (proxy p) (proxy c)) with false
        by (symmetry; by apply String.eqb_neq).
      rewrite orb_true_r. by repeat split.
Qed.

Lemma getFreshProxy_picks_witness :
  exists p s', getFreshProxy (fun _ => 3 # 4) None sampleProxies allFailed
               = (Ok (Some p), s')
               /\ In p sampleProxies.
Proof.
  apply (proj1 (getFreshProxy_picks (fun _ => 3 # 4) None sampleProxies allFailed
                  (fun _ => conj (Qle_bool_imp_le 0 (3 # 4) eq_refl) eq_refl)
                  ltac:(discriminate))).
Defined.

(** *** The ten-minute quarantine *)

Lemma fold_difference (ts : list (Z * string)) (s : gset string) (p : string) :
  p ∈ fold_left (fun s t => s ∖ {[ snd t ]}) ts s
  <-> p ∈ s /\ forall t, In t ts -> snd t <> p.
Proof.
  revert s. induction ts as [|t ts IH]; intros s; simpl; [intuition|].
  rewrite IH, elem_of_difference, elem_of_singleton. split.
  - intros [[Hp Hne] H]. split; [done|]. intros t' [<-|Ht]; [congruence|by apply H].
  - intros [Hp H]. split; [split; [done|]|].
    + intros E. by apply (H t (or_introl eq_refl)).
    + intros t' Ht. apply H. by right.
Qed.

Lemma runTimers_failed (now : Z) (h : Health) (p : string) :
  p ∈ failed (runTimers now h)
  <-> p ∈ failed h /\ forall d, In (d, p) (pending h) -> now < d.
Proof.
  unfold runTimers. cbn [failed]. rewrite fold_difference. split.
  - intros [Hp H]. split; [done|]. intros d Hd.
    destruct (Z.ltb_spec now d) as [|Hle]; [done|]. exfalso.
    apply (H (d, p)); [|done]. apply filter_In. split; [done|]. simpl. lia.
  - intros [Hp H]. split; [done|]. intros [d q] [Hin Hdue]%filter_In E.
    simpl in *. subst q. specialize (H d Hin). lia.
Qed.

Lemma covered_step (proxies : list Proxy) (t0 : Z) (h : Health) (e : Event) :
  covered t0 h -> t0 <= at_time e -> covered (at_time e) (step proxies h e).
Proof.
  intros Hc Ht.
  assert (H1 : covered (at_time e) (runTimers (at_time e) h)).
  { intros p Hp. apply runTimers_failed in Hp as [Hp Hlate].
    destruct (Hc p Hp) as (d & Hd & Hle). exists d. split; [|lia].
    unfold runTimers. cbn [pending]. apply filter_In. split; [done|].
    specialize (Hlate d Hd). simpl. lia. }
  unfold step. destruct e as [now p|now r a]; cbn [at_time] in *.
  - unfold markProxyAsFailed. destruct (String.eqb p ""); [done|].
    intros q Hq. cbn [failed pending] in *.
    apply elem_of_union in Hq as [->%elem_of_singleton|Hq].
    + exists (now + 10 * 60 * 1000). split; [|lia]. apply in_or_app. right. by left.
    + destruct (H1 q Hq) as (d & Hd & Hle). exists d. split; [|done].
      apply in_or_app. by left.
  - intros q Hq. cbn [failed pending] in *.
    destruct (getRandomProxy_set r a proxies (failed (runTimers now h))) as [E|E];
      rewrite E in Hq; [by apply H1|by apply not_elem_of_empty in Hq].
Qed.

(** A proxy stays in the failed set for at most ten minutes after the last
    event: once the timers due ten minutes after the last of any sequence
    of marks and picks have fired, the failed set is empty.  A timer cuts a
    later mark short: a proxy with a timer due is removed when it fires,
    whenever it was last marked.  Marking the empty string does nothing. *)
Theorem failed_proxies_rehabilitated :
  (forall (proxies : list Proxy) (es : list Event) (t0 T : Z),
     inOrder t0 es -> t0 <= T -> Forall (fun e => at_time e <= T) es ->
     failed (runTimers (T + 10 * 60 * 1000) (fold_left (step proxies) es noFailures))
     = ∅)
  /\ (forall (now d : Z) (p : string) (h : Health),
        In (d, p) (pending h) -> d <= now -> p ∉ failed (runTimers now h))
  /\ (forall (now : Z) (h : Health), markProxyAsFailed now "" h = h).
Proof.
  split; [|split].
  - intros proxies es t0 T Hord Ht0 Hall.
    assert (Hgen : forall es h t0,
              covered t0 h -> inOrder t0 es -> t0 <= T ->
              Forall (fun e => at_time e <= T) es ->
              covered T (fold_left (step proxies) es h)).
    { clear. induction es as [|e es IH]; intros h t0 Hc Hord Ht0 Hall; simpl.
      - intros p Hp. destruct (Hc p Hp) as (d & Hd & Hle). exists d. split; [done|lia].
      - destruct Hord as [Hle Hord]. apply Forall_cons in Hall as [HeT Hall].
        apply (IH _ (at_time e)); [by eapply covered_step|done..]. }
    assert (Hc : covered T (fold_left (step proxies) es noFailures)).
    { apply (Hgen es noFailures t0); [|done..]. intros p Hp.
      by apply not_elem_of_empty in Hp. }
    apply leibniz_equiv. apply elem_of_equiv_empty. intros p Hp.
    apply runTimers_failed in Hp as [Hp Hlate].
    destruct (Hc p Hp) as (d & Hd & Hle). specialize (Hlate d Hd). lia.
  - intros now d p h Hin Hle Hp. apply runTimers_failed in Hp as [_ Hlate].
    specialize (Hlate d Hin). lia.
  - done.
Qed.

Lemma failed_proxies_rehabilitated_witness :
  failed (runTimers (240000 + 10 * 60 * 1000)
            (fold_left (step sampleProxies) markedTwice noFailures)) = ∅
  /\ ("10.0.0.1:8080"%string
      ∉ failed (runTimers 600000
                  (fold_left (step sampleProxies) markedTwice noFailures))).
Proof.
  split.
  - apply (proj1 failed_proxies_rehabilitated sampleProxies markedTwice 0 240000).
    + vm_compute. repeat split; discriminate.
    + vm_compute. discriminate.
    + repeat constructor; vm_compute; discriminate.
  - apply (proj1 (proj2 failed_proxies_rehabilitated) 600000 600000).
    + left. reflexivity.
    + vm_compute. discriminate.
Defined.

End RotatorHealth.

(** ** The pool manager: reading the store, sessions and stopping *)
Section PoolReading.
Import CookieService.
Import CookiePoolManager.

(** Every cookie [getExpiringCookies] lists is stored, active, valid and
    expires after now and within the hour; there are at most a hundred.
    The list is non-empty exactly when some active valid cookie of the
    store expires after now and within the hour, so the limit of a hundred
    never hides the need for a refresh. *)
Theorem getExpiringCookies_within_hour (now : Z) (db : CookieService.Collection) :
  (forall c, In c (getExpiringCookies now db) ->
     In c db /\ status c = active /\ isValid (validity c) = true
     /\ exists e, expiresAt (validity c) = Some e
                  /\ now < e <= now + 60 * 60 * 1000)
  /\ (length (getExpiringCookies now db) <= 100)%nat
  /\ (getExpiringCookies now db <> [] <->
      exists c e, In c db /\ status c = active /\ isValid (validity c) = true
                  /\ expiresAt (validity c) = Some e
                  /\ now < e <= now + 60 * 60 * 1000).
Proof.
  unfold getExpiringCookies.
  set (o := {| go_status := Some active |}).
  set (soon := fun cookie : Cookie =>
                 match expiresAt (validity cookie) with
                 | Some e => e <=? now + 60 * 60 * 1000
                 | None => false
                 end).
  assert (Hsound : forall c, In c (List.filter soon (getCookies now o db)) ->
     In c db /\ status c = active /\ isValid (validity c) = true
     /\ exists e, expiresAt (validity c) = Some e
                  /\ now < e <= now + 60 * 60 * 1000).
  { intros c [Hc Hsoon]%filter_In. unfold getCookies in Hc.
    apply limitDocs_In, sortDocs_In, filter_In in Hc as [Hin Hq].
    apply cookiesQuery_true in Hq as (Hs & Hv & _ & (e & He & Hlt)).
    split; [done|]. split; [by apply Hs|]. split; [by apply Hv|].
    exists e. split; [done|]. unfold soon in Hsoon. rewrite He in Hsoon. lia. }
  split; [done|]. split.
  - etransitivity; [apply filter_length_le|].
    unfold getCookies, limitDocs. change (go_limit o) with 100. simpl.
    rewrite length_take. lia.
  - split.
    + intros Hne. destruct (List.filter soon (getCookies now o db)) as [|c l]; [done|].
      destruct (Hsound c) as (Hin & Hs & Hv & e & He & Hr); [by left|].
      by exists c, e.
    + intros (c & e & Hin & Hs & Hv & He & Hr).
      assert (Hq : cookiesQuery now o c = true).
      { unfold cookiesQuery, dateGt. simpl. rewrite Hs, Hv, He. simpl. lia. }
      remember (sortDocs (keyLeb (sortValue (go_sortBy o)) (go_sortOrder o))
                         (List.filter (cookiesQuery now o) db)) as S eqn:ES.
      assert (HcS : In c S) by (subst S; apply sortDocs_In, filter_In; done).
      assert (Hs' : StronglySorted
                (fun a b => keyLeb (sortValue (go_sortBy o)) (go_sortOrder o) a b = true) S)
        by (subst S; apply sortDocs_sorted; [apply keyLeb_total|apply keyLeb_trans]).
      assert (Hall : forall x, In x S -> is_Some (expiresAt (validity x))).
      { intros x Hx. subst S. apply sortDocs_In, filter_In in Hx as [_ Hx].
        apply cookiesQuery_true in Hx as (_ & _ & _ & (ex & -> & _)). by eexists. }
      unfold getCookies, limitDocs. rewrite <- ES. change (go_limit o) with 100. simpl.
      destruct S as [|h rest]; [done|]. simpl.
      assert (Hh : soon h = true).
      { destruct HcS as [->|Hrest]; [unfold soon; rewrite He; lia|].
        apply StronglySorted_inv in Hs' as [_ Hle]. rewrite Forall_forall in Hle.
        specialize (Hle c ltac:(by apply list_elem_of_In)).
        unfold keyLeb, optLeb, sortValue in Hle. simpl in Hle.
        destruct (Hall h (or_introl eq_refl)) as [eh Eh].
        unfold soon. rewrite Eh, He in *. lia. }
      by rewrite Hh.
Qed.

Lemma getExpiringCookies_within_hour_witness :
  exists e, expiresAt (validity (sampleCookie 2 "b" 90 (Some 2000000) 3)) = Some e
            /\ 1000000 < e <= 1000000 + 60 * 60 * 1000.
Proof.
  destruct (proj1 (getExpiringCookies_within_hour 1000000 sampleStore)
              (sampleCookie 2 "b" 90 (Some 2000000) 3)) as (_ & _ & _ & H).
  - vm_compute. left. reflexivity.
  - exact H.
Defined.

Lemma tagsIn_singleton (t : string) (docTags : list string) :
  tagsIn [t] docTags = true -> In t docTags.
Proof.
  unfold tagsIn. rewrite existsb_exists. intros (x & Hx & E).
  simpl in E. rewrite orb_false_r in E. apply String.eqb_eq in E. by subst.
Qed.

(** Asked without criteria, [getFreshCookies] serves only artifacts of the
    domain ticketmaster.com that carry the tag auto-generated, were used
    fewer than five times and not within the last five minutes.  A
    criteria object that carries the key [tags] with the value [undefined]
    lifts the tag filter, the others staying. *)
Theorem getFreshCookies_defaults (now : Z) (db : CookieService.Collection) :
  (forall c, fst (getFreshCookies now noCriteria db) = Some c ->
     domain c = "ticketmaster.com"%string
     /\ In "auto-generated"%string (tags c)
     /\ usageCount (validity c) < 5
     /\ lastUsed (validity c) < now - 5 * 60 * 1000
     /\ 50 <= score (quality c))
  /\ getFreshCookies now
       {| fresh_domain := Absent; fresh_tags := Undefined;
          fresh_excludeUsedRecently := Absent; fresh_maxUsageCount := Absent |} db
     = getBestCookies now
         {| crit_domain := Some "ticketmaster.com"%string; crit_tags := [];
            excludeUsedRecently := true; maxUsageCount := 5 |} db.
Proof.
  split; [|done].
  intros c Hc. unfold getFreshCookies in Hc. apply getBestCookies_Some in Hc as [_ Hq].
  unfold bestQuery in Hq. cbn in Hq. rewrite !andb_true_iff in Hq.
  destruct Hq as [[[[[[[_ _] _] Hs] Hd] Ht] Hr] Hu].
  split; [by apply String.eqb_eq|]. split; [by apply tagsIn_singleton|]. lia.
Qed.

Lemma getFreshCookies_defaults_witness :
  exists c, fst (getFreshCookies 1000000 noCriteria sampleStore) = Some c
            /\ usageCount (validity c) < 5.
Proof.
  eexists. split; [vm_compute; reflexivity|].
  destruct (proj1 (getFreshCookies_defaults 1000000 sampleStore) _
              ltac:(vm_compute; reflexivity)) as (_ & _ & H & _).
  exact H.
Defined.

End PoolReading.

Section Sessions.
Import PoolSession.

Lemma storeCookies_length (uuid : string) (oid : nat) (t : Z)
    (d : CookieService.CookiesData) (o : CookieService.StoreOptions)
    (db : CookieService.Collection) :
  (length db <= length (snd (CookieService.storeCookies uuid oid t d o db))
   <= length db + 1)%nat.
Proof.
  unfold CookieService.storeCookies. destruct (existsb _ db); simpl; [lia|].
  rewrite length_app. simpl. lia.
Qed.

Lemma sessionLoop_accounted (maxRetries : Z) (event : PoolEvent)
    (attempts : Z -> Attempt) (fuel : nat) :
  forall (retries : Z) (stats stats' : Stats) (db db' : CookieService.Collection)
         (o : Outcome),
    0 <= retries <= maxRetries ->
    Z.of_nat fuel = maxRetries + 1 - retries ->
    sessionLoop fuel maxRetries retries event attempts stats db = (o, stats', db') ->
    accounted maxRetries retries stats stats' db db' o.
Proof.
  induction fuel as [|fuel IH]; intros retries stats stats' db db' o Hr Hf; [lia|].
  cbn [sessionLoop]. replace (retries <=? maxRetries) with true by lia.
  assert (Hfail : forall db1,
            (0 <= Z.of_nat (length db1) - Z.of_nat (length db) <= 1) ->
            match afterFailure maxRetries retries (attempts retries) stats with
            | inl (retries', stats1) =>
                sessionLoop fuel maxRetries retries' event attempts stats1 db1
            | inr (outcome, stats1) => (outcome, stats1, db1)
            end = (o, stats', db') ->
            accounted maxRetries retries stats stats' db db' o).
  { intros db1 Hlen. unfold afterFailure.
    destruct (maxRetries <? retries + 1) eqn:Elast.
    - destruct (failureMetricsOk (attempts retries));
        intros [= <- <- <-]; unfold accounted; simpl; lia.
    - intros Hrun. apply IH in Hrun; [|lia..].
      unfold accounted in *. simpl in Hrun.
      destruct Hrun as (H1 & H2 & H3). split; [lia|]. split; [lia|].
      destruct o; try done; lia. }
  destruct (refreshed (attempts retries)) as [[|c cookies]|].
  - apply Hfail. lia.
  - pose proof (storeCookies_length (cookieUuid (attempts retries))
                  (cookieOid (attempts retries)) (now (attempts retries))
                  (CookieService.DataArray (c :: cookies))
                  (storeOptions event (attempts retries)) db) as Hlen.
    destruct (CookieService.storeCookies _ _ _ _ _ db) as [rec db1]. simpl in Hlen.
    destruct (successMetricsOk (attempts retries)).
    + intros [= <- <- <-]. unfold accounted. simpl length. simpl. lia.
    + apply Hfail. lia.
  - apply Hfail. lia.
Qed.

(** A session makes at least one and at most [maxRetries + 1] attempts
    and counts each in [totalVisits]; the store grows by at most one
    document per attempt and never shrinks.  A success adds one successful
    visit and the number of cookies obtained; giving up happens only after
    [maxRetries + 1] attempts and adds one failed visit; a session whose
    final failure report throws has counted its attempts but neither a
    success nor a failure.  With a negative [maxRetries] nothing runs. *)
Theorem processSingleEvent_accounts (maxRetries : Z) (event : PoolEvent)
    (attempts : Z -> Attempt) (stats : Stats) (db : CookieService.Collection) :
  (0 <= maxRetries ->
   forall o stats' db',
     processSingleEvent maxRetries event attempts stats db = (o, stats', db') ->
     accounted maxRetries 0 stats stats' db db' o)
  /\ (maxRetries < 0 ->
      processSingleEvent maxRetries event attempts stats db = (NotRun, stats, db)).
Proof.
  split.
  - intros Hm o stats' db' Hrun. unfold processSingleEvent in Hrun.
    apply sessionLoop_accounted in Hrun; [done|lia|lia].
  - intros Hm. unfold processSingleEvent.
    destruct (Z.to_nat (maxRetries + 1)); simpl; [done|].
    by replace (0 <=? maxRetries) with false by lia.
Qed.

Lemma processSingleEvent_accounts_witness :
  accounted 3 0 noStats
    (snd (fst (processSingleEvent 3 sampleEvent alwaysEmpty noStats [])))
    [] (snd (processSingleEvent 3 sampleEvent alwaysEmpty noStats []))
    (fst (fst (processSingleEvent 3 sampleEvent alwaysEmpty noStats []))).
Proof.
  apply (proj1 (processSingleEvent_accounts 3 sampleEvent alwaysEmpty noStats [])).
  - vm_compute. discriminate.
  - vm_compute. reflexivity.
Defined.

End Sessions.

Section Stopping.
Import CookiePoolManager.

Lemma stopped_step (st : State) (e : Event) :
  isStart e = false -> isRunning st = false ->
  isRunning (step st e) = false
  /\ (reading (step st e) + spawning (step st e) <= reading st + spawning st)%nat
  /\ (load (step st e) <= load st)%nat
  /\ (reading st = 0%nat -> spawning st = 0%nat ->
      activeBrowsers (step st e) ⊆ activeBrowsers st).
Proof.
  unfold load. intros He Hr. destruct e as [| | |q|d|sid|o]; simpl in *; try done.
  - unfold stop. rewrite Hr. simpl. by repeat split.
  - destruct (processVisits_cases st) as (_ & _ & _ & _ & ->); by repeat split.
  - destruct (afterQueries_cases q st) as (_ & -> & -> & Hrd & [[Hs _]|(Hs & Hrd' & _)]).
    + split; [done|]. split; [lia|]. split; [lia|done].
    + split; [done|]. split; [lia|]. split; [lia|done].
  - destruct (startNewBrowserSession_cases d st) as (_ & Hrun & Hrd & [E|[Hs [Ha|Ha]]]).
    + rewrite E. by repeat split.
    + rewrite Hrun, Hrd, Ha. split; [done|]. split; [lia|]. split; [lia|].
      intros _ H0. exfalso. lia.
    + rewrite Hrun, Hrd, Ha.
      pose proof (size_add_le (sessionId d) (activeBrowsers st)).
      split; [done|]. split; [lia|]. split; [lia|].
      intros _ H0. exfalso. lia.
  - assert (size (activeBrowsers st ∖ {[sid]}) <= size (activeBrowsers st))%nat
      by (apply subseteq_size, subseteq_difference_l; reflexivity).
    repeat split; try done; try lia.
    intros _ _. apply subseteq_difference_l. reflexivity.
Qed.

(** [stop] keeps new runs from being entered but does not call off the
    runs in flight: after it, whatever callbacks follow short of another
    [start], the manager stays stopped, no run is entered, and sessions
    held plus runs in flight never grow, so that at most as many sessions
    are added after the stop as runs were in flight at the stop.  With no
    run in flight at the stop the active set only shrinks. *)
Theorem stop_lets_runs_finish (st : State) (es : list Event) :
  Forall (fun e => isStart e = false) es ->
  isRunning (fold_left step es (stop st)) = false
  /\ (reading (fold_left step es (stop st)) + spawning (fold_left step es (stop st))
      <= reading st + spawning st)%nat
  /\ (size (activeBrowsers (fold_left step es (stop st)))
      <= size (activeBrowsers st) + reading st + spawning st)%nat
  /\ (reading st = 0%nat -> spawning st = 0%nat ->
      activeBrowsers (fold_left step es (stop st)) ⊆ activeBrowsers st).
Proof.
  intros Hes.
  assert (Hgen : forall es s, Forall (fun e => isStart e = false) es ->
            isRunning s = false ->
            isRunning (fold_left step es s) = false
            /\ (reading (fold_left step es s) + spawning (fold_left step es s)
                <= reading s + spawning s)%nat
            /\ (load (fold_left step es s) <= load s)%nat
            /\ (reading s = 0%nat -> spawning s = 0%nat ->
                activeBrowsers (fold_left step es s) ⊆ activeBrowsers s)).
  { clear. induction es as [|e es IH]; intros s Hes Hr; simpl; [done|].
    apply Forall_cons in Hes as [He Hes].
    destruct (stopped_step s e He Hr) as (Hr' & Hfl & Hld & Hsub).
    destruct (IH (step s e) Hes Hr') as (IH1 & IH2 & IH3 & IH4).
    split; [done|]. split; [lia|]. split; [lia|].
    intros H0 H1. etransitivity; [apply IH4; lia|by apply Hsub]. }
  assert (Hstop : isRunning (stop st) = false
                  /\ activeBrowsers (stop st) = activeBrowsers st
                  /\ reading (stop st) = reading st
                  /\ spawning (stop st) = spawning st).
  { unfold stop. destruct (isRunning st) eqn:E; simpl; [done|by rewrite E]. }
  destruct Hstop as (Hr & Ha & Hrd & Hsp).
  destruct (Hgen es (stop st) Hes Hr) as (H1 & H2 & H3 & H4).
  unfold load in H3. rewrite Ha, Hrd, Hsp in *.
  split; [done|]. split; [done|]. split; [lia|done].
Qed.

Lemma stop_lets_runs_finish_witness :
  (size (activeBrowsers
           (fold_left step [QueriesReturn poolEmpty; EventDrawn (sampleDraw "s1");
                            EventDrawn (sampleDraw "s2"); TimerFires]
              (stop stoppedInFlight)))
   <= size (activeBrowsers stoppedInFlight)
      + reading stoppedInFlight + spawning stoppedInFlight)%nat.
Proof.
  destruct (stop_lets_runs_finish stoppedInFlight
              [QueriesReturn poolEmpty; EventDrawn (sampleDraw "s1");
               EventDrawn (sampleDraw "s2"); TimerFires]) as (_ & _ & H & _).
  - repeat constructor.
  - exact H.
Defined.

End Stopping.

Section Events.
Import EventService.

(** For any draw in [0,1), [getRandomEvent] returns nothing exactly when
    no event has [Skip_Scraping] false; otherwise it returns, in the pool's
    format and with the two fixed tags, one of the events that have. *)
Theorem getRandomEvent_picks (random : Q) (events : list EventDoc) :
  (0 <= random)%Q -> (random < 1)%Q ->
  (getRandomEvent random events = Ok None <->
   forall e, In e events -> Skip_Scraping e <> Some false)
  /\ ((exists e, In e events /\ Skip_Scraping e = Some false) ->
      exists e, In e events /\ Skip_Scraping e = Some false
                /\ getRandomEvent random events = Ok (Some (forPool e))
                /\ tags (forPool e) = ["ticketmaster"%string; "auto-scraping"%string]
                /\ eventId (forPool e) = Event_ID e /\ url (forPool e) = URL e).
Proof.
  intros H0 H1. unfold getRandomEvent.
  set (matching := List.filter toScrape events).
  assert (HtoScrape : forall e, toScrape e = true <-> Skip_Scraping e = Some false).
  { intros e. unfold toScrape. destruct (Skip_Scraping e) as [[|]|]; split; done. }
  assert (Hpick : matching <> [] ->
            exists e, In e matching
                      /\ (if ProxyRotator.randomIndex random (length matching) <? 0
                          then None
                          else matching !! Z.to_nat
                                 (ProxyRotator.randomIndex random (length matching)))
                         = Some e).
  { intros Hne.
    assert (0 < length matching)%nat by (destruct matching; [done|simpl; lia]).
    pose proof (randomIndex_range random (length matching) H0 H1 ltac:(done)) as Hr.
    replace (ProxyRotator.randomIndex random (length matching) <? 0) with false by lia.
    destruct (lookup_lt_is_Some_2 matching
                (Z.to_nat (ProxyRotator.randomIndex random (length matching))))
      as [e He]; [lia|].
    exists e. split; [|done]. apply list_elem_of_In. by eapply list_elem_of_lookup_2. }
  split.
  - destruct matching as [|m ms] eqn:E.
    + simpl. split; [|done]. intros _ e He Hs.
      assert (In e (@nil EventDoc)) as [].
      rewrite <- E. apply filter_In. split; [done|]. by apply HtoScrape.
    + destruct (Hpick ltac:(done)) as (e & _ & ->).
      cbn [length Nat.eqb]. split; [done|]. intros Hnone. exfalso.
      apply (Hnone m).
      * assert (In m matching) as Hm by (rewrite E; by left).
        by apply filter_In in Hm as [Hm _].
      * apply HtoScrape.
        assert (In m matching) as Hm by (rewrite E; by left).
        by apply filter_In in Hm as [_ Hm].
  - intros (e0 & Hin0 & Hs0).
    assert (Hne : matching <> []).
    { intros E. assert (In e0 matching) as Hm
        by (apply filter_In; split; [done|by apply HtoScrape]).
      by rewrite E in Hm. }
    destruct (Hpick Hne) as (e & Hin & ->).
    replace (length matching =? 0)%nat with false
      by (destruct matching; [done|reflexivity]).
    apply filter_In in Hin as [Hin Hs]. exists e.
    split; [done|]. split; [by apply HtoScrape|]. by repeat split.
Qed.

Lemma getRandomEvent_picks_witness :
  exists e, In e sampleEvents /\ Skip_Scraping e = Some false
            /\ getRandomEvent (3 # 4) sampleEvents = Ok (Some (forPool e)).
Proof.
  destruct (getRandomEvent_picks (3 # 4) sampleEvents) as [_ H].
  - vm_compute. discriminate.
  - vm_compute. reflexivity.
  - destruct H as (e & H1 & H2 & H3 & _).
    + eexists. split; [right; left; reflexivity|reflexivity].
    + exists e. split; [exact H1|]. split; [exact H2|exact H3].
Defined.

End Events.
